(** * Blog authoring tool: record store and autosave controller

    A shallow embedding of [src/lib/storage.ts] (the record store kept in
    localStorage) and of the [useAutoSave] hook (debounced, retrying save
    pipeline), with the properties the specification states about them.

    Conventions of the embedding:
    - a JavaScript string is a sequence of code units; the model keeps the
      code units below 256 (U+0000..U+00FF) and writes them as Rocq's
      [ascii], so a string is a [string] (or the [list ascii] of its code
      units where the code walks over characters);
    - a JavaScript number that the code only uses as an integer is a [Z];
      the one floating-point computation (the percentage of
      [getStorageStats]) is done on binary64 floats;
    - an optional field ([field?: T]) is an [option];
    - what the browser provides (JSON, Blob, localStorage quota, the clock,
      the random source) is a variable of the section that uses it. *)

From Stdlib Require Import ZArith Ascii String List Bool Lia.
From Corelib Require PrimFloat FloatOps SpecFloat.
From Stdlib Require Uint63.
From stdpp Require Import base option list strings gmap pretty.

Local Open Scope string_scope.
Local Open Scope list_scope.
Local Open Scope Z_scope.

(** ** Characters and the string primitives the store uses *)

Module Js.

Definition code (c : ascii) : N := N_of_ascii c.

Definition between (lo hi : N) (c : ascii) : bool :=
  (lo <=? code c)%N && (code c <=? hi)%N.

(** [\s]: TAB, LF, VT, FF, CR, SPACE and NO-BREAK SPACE are the white
    space and line terminator code units below 256.  [trim] strips the
    same set. *)
Definition isSpace (c : ascii) : bool :=
  between 9 13 c || (code c =? 32)%N || (code c =? 160)%N.

Definition isUpperAscii (c : ascii) : bool := between 65 90 c.

(** Upper-case letters of U+0000..U+00FF: A-Z and U+00C0..U+00DE except
    the multiplication sign U+00D7. *)
Definition isUpper (c : ascii) : bool :=
  isUpperAscii c || (between 192 222 c && negb (code c =? 215)%N).

(** [\w] is [A-Za-z0-9_]. *)
Definition isWord (c : ascii) : bool :=
  between 65 90 c || between 97 122 c || between 48 57 c || (code c =? 95)%N.

Definition hyphen : ascii := "-"%char.

Definition isHyphen (c : ascii) : bool := (code c =? 45)%N.

Definition lowerChar (c : ascii) : ascii :=
  if isUpper c then ascii_of_N (code c + 32) else c.

(** [s.toLowerCase()] *)
Definition toLowerCase (s : list ascii) : list ascii := map lowerChar s.

Fixpoint dropWhile (p : ascii -> bool) (s : list ascii) : list ascii :=
  match s with
  | [] => []
  | c :: s' => if p c then dropWhile p s' else s
  end.

(** The string without its longest suffix of characters of the class. *)
Fixpoint dropWhileEnd (p : ascii -> bool) (s : list ascii) : list ascii :=
  match s with
  | [] => []
  | c :: s' =>
      match dropWhileEnd p s' with
      | [] => if p c then [] else [c]
      | kept => c :: kept
      end
  end.

(** [s.trim()] *)
Definition trim (s : list ascii) : list ascii :=
  dropWhileEnd isSpace (dropWhile isSpace s).

(** [s.replace(/[^...]/g, '')] for a character class: the characters
    outside the class are deleted. *)
Definition keepOnly (p : ascii -> bool) (s : list ascii) : list ascii :=
  List.filter p s.

(** [s.replace(/C+/g, r)] for a character class [C]: every maximal run
    of characters of the class is replaced by [r].  A character of the
    class that is followed by another one is inside a run and is
    dropped; the last of the run emits [r]. *)
Fixpoint replaceRuns (p : ascii -> bool) (r : list ascii) (s : list ascii)
  : list ascii :=
  match s with
  | [] => []
  | c :: s' =>
      if p c then
        match s' with
        | c' :: _ => if p c' then replaceRuns p r s' else r ++ replaceRuns p r s'
        | [] => r
        end
      else c :: replaceRuns p r s'
  end.

(** [s.replace(/^-+|-+$/g, '')] *)
Definition stripEnds (p : ascii -> bool) (s : list ascii) : list ascii :=
  dropWhileEnd p (dropWhile p s).

(** [s.split(/\s+/)]: the pieces between the maximal runs of white
    space; a run at either end leaves an empty piece there, and the
    empty string splits into one empty piece. *)
Fixpoint splitSpaces (s : list ascii) : list (list ascii) :=
  match s with
  | [] => [[]]
  | c :: s' =>
      if isSpace c then
        match s' with
        | c' :: _ => if isSpace c' then splitSpaces s' else [] :: splitSpaces s'
        | [] => [[]; []]
        end
      else
        match splitSpaces s' with
        | piece :: pieces => (c :: piece) :: pieces
        | [] => [[c]]
        end
  end.

(** [s.substring(0, n)] for [0 <= n]. *)
Definition substring0 (n : nat) (s : list ascii) : list ascii := firstn n s.

Definition chars (s : string) : list ascii := list_ascii_of_string s.
Definition str (l : list ascii) : string := string_of_list_ascii l.

(** [s.length] *)
Definition length (s : string) : Z := Z.of_nat (String.length s).

End Js.

(** ** [src/lib/storage.ts]: pure helpers *)

Definition MAX_STORAGE_SIZE : Z := 5 * 1024 * 1024.
Definition STORAGE_KEY : string := "blog_posts".

(** [generateSlug]: lower-case, trim, delete what is neither a word
    character, white space nor a hyphen, turn runs of white space into one
    hyphen, collapse runs of hyphens, strip hyphens at both ends. *)
Definition slugChars (t : list ascii) : list ascii :=
  Js.stripEnds Js.isHyphen
    (Js.replaceRuns Js.isHyphen [Js.hyphen]
      (Js.replaceRuns Js.isSpace [Js.hyphen]
        (Js.keepOnly (fun c => Js.isWord c || Js.isSpace c || Js.isHyphen c)
          (Js.trim (Js.toLowerCase t))))).

Definition generateSlug (title : string) : string :=
  Js.str (slugChars (Js.chars title)).

(** [Math.ceil(a / b)] for integers [a] and [0 < b]. *)
Definition ceilDiv (a b : Z) : Z := - ((- a) / b).

(** [calculateReadingTime]: [Math.max(1, Math.ceil(wordCount / 200))]. *)
Definition calculateReadingTime (wordCount : Z) : Z :=
  Z.max 1 (ceilDiv wordCount 200).


(** ** The data model ([src/lib/types.ts]) *)

Inductive BlogPostStatus := draft | scheduled | published | archived.

Inductive ContentBlockType :=
  heading | paragraph | image | video | callout | code | quote.

Global Instance ContentBlockType_eq_dec : EqDecision ContentBlockType.
Proof. solve_decision. Defined.

Global Instance BlogPostStatus_eq_dec : EqDecision BlogPostStatus.
Proof. solve_decision. Defined.

(** A value of type [unknown] that went through JSON. *)
#[local] Unset Elimination Schemes.
Inductive JsonValue :=
| JNull
| JBool (b : bool)
| JNumber (n : Z)
| JString (s : string)
| JArray (items : list JsonValue)
| JObject (fields : list (string * JsonValue)).
#[local] Set Elimination Schemes.

Record ImageAsset := {
  image_id : string;
  src : string;
  alt : string;
  caption : option string;
  width : option Z;
  height : option Z;
  uploadedAt : string;
}.

Record ContentBlock := {
  block_id : string;
  block_type : ContentBlockType;
  order : Z;
  block_content : string;
  block_metadata : option (list (string * JsonValue));
}.

Record BlogPostMetadata := {
  wordCount : Z;
  readingTime : Z;
  seoScore : Z;
  excerpt : string;
  keywords : list string;
}.

Record Author := {
  name : string;
  email : string;
  avatar : option string;
}.

Record BlogPost := {
  post_id : string;
  title : string;
  slug : string;
  status : BlogPostStatus;
  content : list ContentBlock;
  featuredImage : option ImageAsset;
  author : Author;
  metadata : BlogPostMetadata;
  tags : list string;
  createdAt : string;
  updatedAt : string;
  publishedAt : option string;
  scheduledAt : option string;
  seoTitle : option string;
  seoDescription : option string;
  seoKeywords : option (list string);
}.

Record BlogPostCreateInput := {
  input_title : string;
  authorName : string;
  authorEmail : string;
}.

Record BlogPostUpdateInput := {
  upd_title : option string;
  upd_slug : option string;
  upd_status : option BlogPostStatus;
  upd_content : option (list ContentBlock);
  upd_featuredImage : option ImageAsset;
  upd_tags : option (list string);
  upd_seoTitle : option string;
  upd_seoDescription : option string;
  upd_seoKeywords : option (list string);
  upd_scheduledAt : option string;
}.

(** The update [{}]. *)
Definition noUpdates : BlogPostUpdateInput :=
  {| upd_title := None; upd_slug := None; upd_status := None;
     upd_content := None; upd_featuredImage := None; upd_tags := None;
     upd_seoTitle := None; upd_seoDescription := None;
     upd_seoKeywords := None; upd_scheduledAt := None |}.

Definition isParagraph (b : ContentBlock) : bool :=
  bool_decide (block_type b = paragraph).

Definition isImage (b : ContentBlock) : bool :=
  bool_decide (block_type b = image).

(** [a || b] on strings: the empty string is falsy. *)
Definition orElse (a b : string) : string :=
  if (a =? "")%string then b else a.

(** [extractExcerpt]: the text of the first paragraph block (or the empty
    string), cut to its first 160 characters, trimmed, with ["..."]
    appended when the text was longer than 160. *)
Definition extractExcerpt (title : string) (contentBlocks : list ContentBlock)
  : string :=
  let paragraphBlock := List.find isParagraph contentBlocks in
  let text := orElse (from_option block_content "" paragraphBlock) "" in
  Js.str (Js.trim (Js.substring0 160 (Js.chars text)))
  +:+ (if 160 <? Js.length text then "..." else "").

(** [calculateSeoScore] *)
Definition calculateSeoScore (title description : string) (wordCount : Z)
    (hasImages : bool) (keywordsCount : Z) : Z :=
  let score := 0 in
  let score :=
    if negb (title =? "")%string && (30 <=? Js.length title)
       && (Js.length title <=? 60)
    then score + 15
    else if negb (title =? "")%string && (0 <? Js.length title)
    then score + 8 else score in
  let score :=
    if negb (description =? "")%string && (120 <=? Js.length description)
       && (Js.length description <=? 160)
    then score + 20
    else if negb (description =? "")%string && (0 <? Js.length description)
    then score + 10 else score in
  let score :=
    if (300 <=? wordCount) && (wordCount <=? 3000) then score + 25
    else if 100 <=? wordCount then score + 12 else score in
  let score := if hasImages then score + 15 else score in
  let score :=
    if 3 <=? keywordsCount then score + 25
    else if 0 <? keywordsCount then score + keywordsCount * 8 else score in
  Z.min 100 score.

(** [content.filter(paragraph).reduce((n, b) => n + b.content.split(/\s+/).length, 0)] *)
Definition countWords (blocks : list ContentBlock) : Z :=
  fold_left
    (fun count b =>
       count + Z.of_nat (List.length (Js.splitSpaces (Js.chars (block_content b)))))
    (List.filter isParagraph blocks) 0.

(** [posts.findIndex(p => p.id === id)]: the first index, or [-1]. *)
Fixpoint findIndexFrom (i : Z) (id : string) (posts : list BlogPost) : Z :=
  match posts with
  | [] => -1
  | p :: rest => if (post_id p =? id)%string then i else findIndexFrom (i + 1) id rest
  end.

Definition findIndex (id : string) (posts : list BlogPost) : Z :=
  findIndexFrom 0 id posts.

(** The object literal of [updatePost]:
    [{...post, ...updates, id: post.id, createdAt: post.createdAt, updatedAt: now}]. *)
Definition spreadUpdates (post : BlogPost) (updates : BlogPostUpdateInput)
    (now : string) : BlogPost :=
  {| post_id := post_id post;
     title := default (title post) (upd_title updates);
     slug := default (slug post) (upd_slug updates);
     status := default (status post) (upd_status updates);
     content := default (content post) (upd_content updates);
     featuredImage :=
       match upd_featuredImage updates with
       | Some img => Some img
       | None => featuredImage post
       end;
     author := author post;
     metadata := metadata post;
     tags := default (tags post) (upd_tags updates);
     createdAt := createdAt post;
     updatedAt := now;
     publishedAt := publishedAt post;
     scheduledAt :=
       match upd_scheduledAt updates with
       | Some t => Some t
       | None => scheduledAt post
       end;
     seoTitle :=
       match upd_seoTitle updates with
       | Some t => Some t
       | None => seoTitle post
       end;
     seoDescription :=
       match upd_seoDescription updates with
       | Some t => Some t
       | None => seoDescription post
       end;
     seoKeywords :=
       match upd_seoKeywords updates with
       | Some t => Some t
       | None => seoKeywords post
       end |}.

Definition withMetadata (post : BlogPost) (m : BlogPostMetadata) : BlogPost :=
  {| post_id := post_id post; title := title post; slug := slug post;
     status := status post; content := content post;
     featuredImage := featuredImage post; author := author post;
     metadata := m; tags := tags post; createdAt := createdAt post;
     updatedAt := updatedAt post; publishedAt := publishedAt post;
     scheduledAt := scheduledAt post; seoTitle := seoTitle post;
     seoDescription := seoDescription post; seoKeywords := seoKeywords post |}.

(** The metadata block that [updatePost] recomputes when the update
    carries [content]. *)
Definition recalculateMetadata (updatedPost : BlogPost)
    (updates : BlogPostUpdateInput) (blocks : list ContentBlock)
  : BlogPostMetadata :=
  let wordCount := countWords blocks in
  let hasImages := existsb isImage blocks in
  let keywordsCount :=
    from_option (fun ks => Z.of_nat (List.length ks)) 0 (upd_seoKeywords updates) in
  {| wordCount := wordCount;
     readingTime := calculateReadingTime wordCount;
     seoScore :=
       calculateSeoScore
         (orElse (default "" (upd_seoTitle updates)) (title updatedPost))
         (orElse (default "" (upd_seoDescription updates)) "")
         wordCount hasImages keywordsCount;
     excerpt := extractExcerpt (title updatedPost) blocks;
     keywords := default [] (upd_seoKeywords updates) |}.

(** The record [updatePost] is about to store in place of [post]. *)
Definition updatedPostOf (post : BlogPost) (updates : BlogPostUpdateInput)
    (now : string) : BlogPost :=
  let updatedPost := spreadUpdates post updates now in
  match upd_content updates with
  | Some blocks =>
      withMetadata updatedPost (recalculateMetadata updatedPost updates blocks)
  | None => updatedPost
  end.

(** ** What the browser provides *)

(** [JSON.parse(text) as BlogPost[]]: a syntax error, a value that is not
    an array, or an array of posts. *)
Inductive Parsed :=
| SyntaxError
| NotAnArray
| ParsedArray (posts : list BlogPost).

Record Browser := {
  (** [JSON.stringify(posts)] *)
  JSON_stringify : list BlogPost -> string;
  (** [JSON.stringify(posts, null, 2)] *)
  JSON_stringify_indent : list BlogPost -> string;
  JSON_parse : string -> Parsed;
  (** [new Blob([text]).size]: the UTF-8 byte length of the text *)
  Blob_size : string -> Z;
  (** whether [localStorage.setItem(key, value)] finds room; it throws a
      quota error otherwise *)
  quotaAllows : gmap string string -> string -> string -> bool;
}.

(** What one call reads from the clock and the random source. *)
Record Ambient := {
  (** [Date.now()] inside [generateId] *)
  idMillis : Z;
  (** [Math.random().toString(36).substr(2, 9)] *)
  idRandom : string;
  (** [new Date().toISOString()] *)
  isoNow : string;
  (** [Date.now()] inside the slug of a duplicate *)
  slugMillis : Z;
}.

Inductive StoreError :=
| StorageLimitExceeded (totalSize : Z)
| SaveFailed.

(** A call that returns or throws. *)
Inductive Outcome (A : Type) :=
| Returned (a : A)
| Thrown (e : StoreError).
Arguments Returned {A} a.
Arguments Thrown {A} e.

Inductive ImportError :=
| NotAnArrayError
| ImportLimitExceeded (totalSize : Z)
| ImportException.

Record ImportResult := {
  success : bool;
  count : Z;
  error : option ImportError;
}.

(** [generateId] *)
Definition generateId (env : Ambient) : string :=
  "bp_" +:+ pretty (idMillis env) +:+ "_" +:+ idRandom env.

(** The record [createPost] builds. *)
Definition newPostOf (env : Ambient) (input : BlogPostCreateInput) : BlogPost :=
  {| post_id := generateId env;
     title := input_title input;
     slug := generateSlug (input_title input);
     status := draft;
     content := [];
     featuredImage := None;
     author := {| name := authorName input; email := authorEmail input;
                  avatar := None |};
     metadata := {| wordCount := 0; readingTime := 0; seoScore := 0;
                    excerpt := ""; keywords := [] |};
     tags := [];
     createdAt := isoNow env;
     updatedAt := isoNow env;
     publishedAt := None;
     scheduledAt := None;
     seoTitle := None;
     seoDescription := None;
     seoKeywords := None |}.

(** The record [duplicatePost] builds from [post]. *)
Definition duplicateOf (env : Ambient) (post : BlogPost) : BlogPost :=
  {| post_id := generateId env;
     title := title post;
     slug := slug post +:+ "-copy-" +:+ pretty (slugMillis env);
     status := draft;
     content := content post;
     featuredImage := featuredImage post;
     author := author post;
     metadata := metadata post;
     tags := tags post;
     createdAt := isoNow env;
     updatedAt := isoNow env;
     publishedAt := None;
     scheduledAt := scheduledAt post;
     seoTitle := seoTitle post;
     seoDescription := seoDescription post;
     seoKeywords := seoKeywords post |}.

(** The loop of [importPostsFromJson]: a post whose id is not yet in the
    merged array is pushed and counted. *)
Definition mergeStep (acc : list BlogPost * Z) (post : BlogPost)
  : list BlogPost * Z :=
  let '(mergedPosts, importedCount) := acc in
  if findIndex (post_id post) mergedPosts =? -1
  then (mergedPosts ++ [post], importedCount + 1)
  else (mergedPosts, importedCount).

Definition mergeImported (existingPosts importedPosts : list BlogPost)
  : list BlogPost * Z :=
  fold_left mergeStep importedPosts (existingPosts, 0).

(** ** Numbers

    A JavaScript number is a double.  The sizes and counts of the store are
    non-negative integers far below [2^53], on which the code's arithmetic
    is exact: the model keeps them in [Z].  The one computation that leaves
    the integers is the percentage of [getStorageStats]; it is modelled on
    binary64 floats, with the rounding of each operation. *)

(** The double of an integer [0 <= n < 2^53]. *)
Definition numberOf (n : Z) : PrimFloat.float :=
  PrimFloat.of_uint63 (Uint63.of_Z n).

(** [Math.round(x)] for a finite [x]: the integer [floor (x + 1/2)] (a tie
    goes up), computed from the sign, mantissa and exponent of [x].
    [Math.round] returns NaN and the infinities unchanged; they do not
    arise in [getStorageStats] (a size divided by a positive constant),
    and have no integer to stand for them: the model gives 0. *)
Definition Math_round (x : PrimFloat.float) : Z :=
  match FloatOps.Prim2SF x with
  | SpecFloat.S754_finite s m e =>
      let n := if s then Z.neg m else Z.pos m in
      if 0 <=? e then n * 2 ^ e
      else (2 * n + 2 ^ (- e)) / 2 ^ (- e + 1)
  | _ => 0
  end.

(** ** The record store *)

Section RecordStore.

Variable B : Browser.

(** [getObjectSize] *)
Definition getObjectSize (posts : list BlogPost) : Z :=
  Blob_size B (JSON_stringify B posts).

(** [localStorage.setItem]: [None] when it throws. *)
Definition setItem (key value : string) (ls : gmap string string)
  : option (gmap string string) :=
  if quotaAllows B ls key value then Some (<[key := value]> ls) else None.

(** [getAllPosts] *)
Definition getAllPosts (ls : gmap string string) : list BlogPost :=
  match ls !! STORAGE_KEY with
  | None => []
  | Some data =>
      if (data =? "")%string then []
      else match JSON_parse B data with
           | ParsedArray posts => posts
           | NotAnArray => []
           | SyntaxError => []
           end
  end.

(** [getPostById] *)
Definition getPostById (id : string) (ls : gmap string string)
  : option BlogPost :=
  List.find (fun p => (post_id p =? id)%string) (getAllPosts ls).

(** [getPostsByStatus] *)
Definition getPostsByStatus (st : BlogPostStatus) (ls : gmap string string)
  : list BlogPost :=
  List.filter (fun p => bool_decide (status p = st)) (getAllPosts ls).

(** [createPost] *)
Definition createPost (env : Ambient) (input : BlogPostCreateInput)
    (ls : gmap string string) : Outcome BlogPost * gmap string string :=
  let newPost := newPostOf env input in
  let posts := getAllPosts ls ++ [newPost] in
  let totalSize := getObjectSize posts in
  if MAX_STORAGE_SIZE <? totalSize then
    (Thrown (StorageLimitExceeded totalSize), ls)
  else
    match setItem STORAGE_KEY (JSON_stringify B posts) ls with
    | Some ls' => (Returned newPost, ls')
    | None => (Thrown SaveFailed, ls)
    end.

(** [updatePost] *)
Definition updatePost (env : Ambient) (id : string)
    (updates : BlogPostUpdateInput) (ls : gmap string string)
  : option BlogPost * gmap string string :=
  let posts := getAllPosts ls in
  let postIndex := findIndex id posts in
  if postIndex =? -1 then (None, ls)
  else
    match posts !! Z.to_nat postIndex with
    | None => (None, ls)
    | Some post =>
        let updatedPost := updatedPostOf post updates (isoNow env) in
        let posts := <[Z.to_nat postIndex := updatedPost]> posts in
        let totalSize := getObjectSize posts in
        if MAX_STORAGE_SIZE <? totalSize then (None, ls)
        else
          match setItem STORAGE_KEY (JSON_stringify B posts) ls with
          | Some ls' => (Some updatedPost, ls')
          | None => (None, ls)
          end
    end.

(** [deletePost] *)
Definition deletePost (id : string) (ls : gmap string string)
  : bool * gmap string string :=
  let posts := getAllPosts ls in
  let filtered := List.filter (fun p => negb (post_id p =? id)%string) posts in
  if (List.length filtered =? List.length posts)%nat then (false, ls)
  else
    match setItem STORAGE_KEY (JSON_stringify B filtered) ls with
    | Some ls' => (true, ls')
    | None => (false, ls)
    end.

(** [duplicatePost] *)
Definition duplicatePost (env : Ambient) (id : string)
    (ls : gmap string string) : option BlogPost * gmap string string :=
  match getPostById id ls with
  | None => (None, ls)
  | Some post =>
      let duplicatedPost := duplicateOf env post in
      let posts := getAllPosts ls ++ [duplicatedPost] in
      let totalSize := getObjectSize posts in
      if MAX_STORAGE_SIZE <? totalSize then (None, ls)
      else
        match setItem STORAGE_KEY (JSON_stringify B posts) ls with
        | Some ls' => (Some duplicatedPost, ls')
        | None => (None, ls)
        end
  end.

(** [clearAllPosts] *)
Definition clearAllPosts (ls : gmap string string) : gmap string string :=
  delete STORAGE_KEY ls.

(** [exportPostsAsJson] *)
Definition exportPostsAsJson (ls : gmap string string) : string :=
  JSON_stringify_indent B (getAllPosts ls).

(** [importPostsFromJson] *)
Definition importPostsFromJson (jsonString : string) (ls : gmap string string)
  : ImportResult * gmap string string :=
  match JSON_parse B jsonString with
  | SyntaxError =>
      ({| success := false; count := 0; error := Some ImportException |}, ls)
  | NotAnArray =>
      ({| success := false; count := 0; error := Some NotAnArrayError |}, ls)
  | ParsedArray importedPosts =>
      let existingPosts := getAllPosts ls in
      let '(mergedPosts, importedCount) :=
        mergeImported existingPosts importedPosts in
      let totalSize := getObjectSize mergedPosts in
      if MAX_STORAGE_SIZE <? totalSize then
        ({| success := false; count := 0;
            error := Some (ImportLimitExceeded totalSize) |}, ls)
      else
        match setItem STORAGE_KEY (JSON_stringify B mergedPosts) ls with
        | Some ls' =>
            ({| success := true; count := importedCount; error := None |}, ls')
        | None =>
            ({| success := false; count := 0; error := Some ImportException |}, ls)
        end
  end.

(** [getStorageStats] returns [(used, limit, usedPercent, posts)];
    [usedPercent] is [Math.round((used / MAX_STORAGE_SIZE) * 100)], computed
    in double precision as the code does.  [getAllPosts] and the size
    measure never throw here, so the [catch] branch is not reached. *)
Definition getStorageStats (ls : gmap string string) : Z * Z * Z * Z :=
  let posts := getAllPosts ls in
  let used := getObjectSize posts in
  (used, MAX_STORAGE_SIZE,
   Math_round
     (PrimFloat.mul
        (PrimFloat.div (numberOf used) (numberOf MAX_STORAGE_SIZE))
        (numberOf 100)),
   Z.of_nat (List.length posts)).

End RecordStore.

(** ** Shapes of character sequences (used to state the slug theorems) *)

(** [a-z0-9_-]: what a slug is made of. *)
Definition slugChar (c : ascii) : bool :=
  Js.between 97 122 c || Js.between 48 57 c || (Js.code c =? 95)%N
  || Js.isHyphen c.

(** No two adjacent characters are both of the class. *)
Fixpoint noDouble (p : ascii -> bool) (s : list ascii) : bool :=
  match s with
  | c :: s' =>
      match s' with
      | c' :: _ => negb (p c && p c') && noDouble p s'
      | [] => true
      end
  | [] => true
  end.

Definition headNot (p : ascii -> bool) (s : list ascii) : bool :=
  match s with c :: _ => negb (p c) | [] => true end.

Definition lastNot (p : ascii -> bool) (s : list ascii) : bool :=
  match last s with Some c => negb (p c) | None => true end.

(** A slug in normal form. *)
Definition slugShape (s : list ascii) : Prop :=
  forallb slugChar s = true /\ noDouble Js.isHyphen s = true
  /\ headNot Js.isHyphen s = true /\ lastNot Js.isHyphen s = true.

(** ** A browser double for the examples

    The examples below run the store on a small stand-in for the browser:
    posts are written as their identifiers between brackets
    ([[a;b;]]), read back as minimal records with those identifiers, a
    character counts 64 KiB towards the size of a Blob (80 characters
    reach the cap), and localStorage always finds room. *)

Module Double.

Definition stub (id : string) : BlogPost :=
  {| post_id := id; title := "Title"; slug := "title"; status := draft;
     content := []; featuredImage := None;
     author := {| name := "Ann"; email := "ann@example.org"; avatar := None |};
     metadata := {| wordCount := 0; readingTime := 0; seoScore := 0;
                    excerpt := ""; keywords := [] |};
     tags := []; createdAt := "2024-01-01T00:00:00.000Z";
     updatedAt := "2024-01-01T00:00:00.000Z"; publishedAt := None;
     scheduledAt := None; seoTitle := None; seoDescription := None;
     seoKeywords := None |}.

Definition write (sep : string) (posts : list BlogPost) : string :=
  "[" +:+ String.concat "" (map (fun p => sep +:+ post_id p +:+ ";") posts)
  +:+ sep +:+ "]".

Fixpoint fields (cur : list ascii) (s : list ascii) : list string :=
  match s with
  | [] => []
  | c :: s' =>
      if Ascii.eqb c ";" then Js.str (rev cur) :: fields [] s'
      else fields (c :: cur) s'
  end.

Definition read (text : string) : Parsed :=
  match List.filter (fun c => negb (Js.isSpace c)) (Js.chars text) with
  | c :: rest =>
      if Ascii.eqb c "[" then
        match rev rest with
        | c' :: body =>
            if Ascii.eqb c' "]" then ParsedArray (map stub (fields [] (rev body)))
            else SyntaxError
        | [] => SyntaxError
        end
      else if Ascii.eqb c "{" then NotAnArray
      else SyntaxError
  | [] => SyntaxError
  end.

Definition browser : Browser :=
  {| JSON_stringify := write "";
     JSON_stringify_indent := write " ";
     JSON_parse := read;
     Blob_size := fun text => 64 * 1024 * Js.length text;
     quotaAllows := fun _ _ _ => true |}.

(** The same browser with a localStorage that is full. *)
Definition fullBrowser : Browser :=
  {| JSON_stringify := write "";
     JSON_stringify_indent := write " ";
     JSON_parse := read;
     Blob_size := fun text => 64 * 1024 * Js.length text;
     quotaAllows := fun _ _ _ => false |}.

Definition env : Ambient :=
  {| idMillis := 1700000000000; idRandom := "k3j9x0a1b";
     isoNow := "2024-02-02T10:00:00.000Z"; slugMillis := 1700000000001 |}.

(** A localStorage that holds the given posts. *)
Definition holding (posts : list BlogPost) : gmap string string :=
  {[ STORAGE_KEY := write "" posts ]}.

Definition post1 : BlogPost := stub "bp_1600000000000_aaaaaaaaa".
Definition post2 : BlogPost := stub "bp_1600000000001_bbbbbbbbb".
Definition post3 : BlogPost := stub "bp_1600000000002_ccccccccc".

Definition input : BlogPostCreateInput :=
  {| input_title := "Hello, World"; authorName := "Ann";
     authorEmail := "ann@example.org" |}.

Definition paragraphOf (text : string) : ContentBlock :=
  {| block_id := "b1"; block_type := paragraph; order := 0;
     block_content := text; block_metadata := None |}.

End Double.

(** ** The autosave controller ([useAutoSave])

    The hook runs on the browser's event loop.  Its state is the React
    state it exposes, its refs, and what the event loop holds for it: the
    clock, the timers set with [setTimeout], and the calls of
    [executeAutoSave] that are suspended at [await onSave(data)].  The
    calls of the injected [onSave] and the backup writes are recorded in
    the order they happen.  An event is a call of [autoSave], time
    passing (the timers that come due fire, earliest first), the
    settling of a pending [onSave] promise, or a browser event. *)

Module AutoSave.

Record Options := {
  debounceDelay : Z;
  maxRetries : Z;
  retryDelay : Z;
}.

(** The defaults of the hook's parameters. *)
Definition defaults : Options :=
  {| debounceDelay := 3000; maxRetries := 3; retryDelay := 1000 |}.

(** What [onSave] rejected with: an [Error], or some other value (for
    which the hook makes [new Error('Auto-save failed')]). *)
Inductive Rejection :=
| ErrorObject (message : string)
| OtherValue.

Inductive Settled :=
| Fulfilled
| Rejected (reason : Rejection).

(** The closures handed to [setTimeout]: the one of [autoSave], and the
    one of the catch block of attempt [attemptNumber]. *)
Inductive Callback :=
| DebounceCallback
| RetryCallback (attemptNumber : Z).

Record Timer := {
  timerId : nat;
  due : Z;
  callback : Callback;
}.

(** A call [executeAutoSave(data, attemptNumber)] waiting for [onSave]. *)
Record Suspended := {
  data : BlogPost;
  attemptNumber : Z;
}.

Record Hook := {
  (** React state *)
  isSaving : bool;
  lastSavedAt : option Z;
  error : option string;
  (** refs *)
  debounceTimerRef : option nat;
  retryCountRef : Z;
  pendingDataRef : option BlogPost;
  isSavingRef : bool;
  isOnlineRef : bool;
  (** event loop *)
  clock : Z;
  timers : list Timer;
  nextTimerId : nat;
  awaiting : list Suspended;
  (** effects, oldest first *)
  saveCalls : list (Z * BlogPost);
  backups : list (string * BlogPost * Z);
}.

(** The hook after its first render, at time [now]. *)
Definition mounted (now : Z) (online : bool) : Hook :=
  {| isSaving := false; lastSavedAt := None; error := None;
     debounceTimerRef := None; retryCountRef := 0; pendingDataRef := None;
     isSavingRef := false; isOnlineRef := online;
     clock := now; timers := []; nextTimerId := 1; awaiting := [];
     saveCalls := []; backups := [] |}.

(** [setIsSaving(b)] and [isSavingRef.current = b] *)
Definition setSaving (b : bool) (h : Hook) : Hook :=
  {| isSaving := b; lastSavedAt := lastSavedAt h; error := error h;
     debounceTimerRef := debounceTimerRef h; retryCountRef := retryCountRef h;
     pendingDataRef := pendingDataRef h; isSavingRef := b;
     isOnlineRef := isOnlineRef h; clock := clock h; timers := timers h;
     nextTimerId := nextTimerId h; awaiting := awaiting h;
     saveCalls := saveCalls h; backups := backups h |}.

Definition setLastSavedAt (t : option Z) (h : Hook) : Hook :=
  {| isSaving := isSaving h; lastSavedAt := t; error := error h;
     debounceTimerRef := debounceTimerRef h; retryCountRef := retryCountRef h;
     pendingDataRef := pendingDataRef h; isSavingRef := isSavingRef h;
     isOnlineRef := isOnlineRef h; clock := clock h; timers := timers h;
     nextTimerId := nextTimerId h; awaiting := awaiting h;
     saveCalls := saveCalls h; backups := backups h |}.

Definition setError (e : option string) (h : Hook) : Hook :=
  {| isSaving := isSaving h; lastSavedAt := lastSavedAt h; error := e;
     debounceTimerRef := debounceTimerRef h; retryCountRef := retryCountRef h;
     pendingDataRef := pendingDataRef h; isSavingRef := isSavingRef h;
     isOnlineRef := isOnlineRef h; clock := clock h; timers := timers h;
     nextTimerId := nextTimerId h; awaiting := awaiting h;
     saveCalls := saveCalls h; backups := backups h |}.

Definition setDebounceTimerRef (r : option nat) (h : Hook) : Hook :=
  {| isSaving := isSaving h; lastSavedAt := lastSavedAt h; error := error h;
     debounceTimerRef := r; retryCountRef := retryCountRef h;
     pendingDataRef := pendingDataRef h; isSavingRef := isSavingRef h;
     isOnlineRef := isOnlineRef h; clock := clock h; timers := timers h;
     nextTimerId := nextTimerId h; awaiting := awaiting h;
     saveCalls := saveCalls h; backups := backups h |}.

Definition setRetryCountRef (n : Z) (h : Hook) : Hook :=
  {| isSaving := isSaving h; lastSavedAt := lastSavedAt h; error := error h;
     debounceTimerRef := debounceTimerRef h; retryCountRef := n;
     pendingDataRef := pendingDataRef h; isSavingRef := isSavingRef h;
     isOnlineRef := isOnlineRef h; clock := clock h; timers := timers h;
     nextTimerId := nextTimerId h; awaiting := awaiting h;
     saveCalls := saveCalls h; backups := backups h |}.

Definition setPendingDataRef (d : option BlogPost) (h : Hook) : Hook :=
  {| isSaving := isSaving h; lastSavedAt := lastSavedAt h; error := error h;
     debounceTimerRef := debounceTimerRef h; retryCountRef := retryCountRef h;
     pendingDataRef := d; isSavingRef := isSavingRef h;
     isOnlineRef := isOnlineRef h; clock := clock h; timers := timers h;
     nextTimerId := nextTimerId h; awaiting := awaiting h;
     saveCalls := saveCalls h; backups := backups h |}.

Definition setIsOnlineRef (b : bool) (h : Hook) : Hook :=
  {| isSaving := isSaving h; lastSavedAt := lastSavedAt h; error := error h;
     debounceTimerRef := debounceTimerRef h; retryCountRef := retryCountRef h;
     pendingDataRef := pendingDataRef h; isSavingRef := isSavingRef h;
     isOnlineRef := b; clock := clock h; timers := timers h;
     nextTimerId := nextTimerId h; awaiting := awaiting h;
     saveCalls := saveCalls h; backups := backups h |}.

Definition setClock (t : Z) (h : Hook) : Hook :=
  {| isSaving := isSaving h; lastSavedAt := lastSavedAt h; error := error h;
     debounceTimerRef := debounceTimerRef h; retryCountRef := retryCountRef h;
     pendingDataRef := pendingDataRef h; isSavingRef := isSavingRef h;
     isOnlineRef := isOnlineRef h; clock := t; timers := timers h;
     nextTimerId := nextTimerId h; awaiting := awaiting h;
     saveCalls := saveCalls h; backups := backups h |}.

Definition setTimers (ts : list Timer) (h : Hook) : Hook :=
  {| isSaving := isSaving h; lastSavedAt := lastSavedAt h; error := error h;
     debounceTimerRef := debounceTimerRef h; retryCountRef := retryCountRef h;
     pendingDataRef := pendingDataRef h; isSavingRef := isSavingRef h;
     isOnlineRef := isOnlineRef h; clock := clock h; timers := ts;
     nextTimerId := nextTimerId h; awaiting := awaiting h;
     saveCalls := saveCalls h; backups := backups h |}.

Definition setNextTimerId (n : nat) (h : Hook) : Hook :=
  {| isSaving := isSaving h; lastSavedAt := lastSavedAt h; error := error h;
     debounceTimerRef := debounceTimerRef h; retryCountRef := retryCountRef h;
     pendingDataRef := pendingDataRef h; isSavingRef := isSavingRef h;
     isOnlineRef := isOnlineRef h; clock := clock h; timers := timers h;
     nextTimerId := n; awaiting := awaiting h;
     saveCalls := saveCalls h; backups := backups h |}.

Definition setAwaiting (a : list Suspended) (h : Hook) : Hook :=
  {| isSaving := isSaving h; lastSavedAt := lastSavedAt h; error := error h;
     debounceTimerRef := debounceTimerRef h; retryCountRef := retryCountRef h;
     pendingDataRef := pendingDataRef h; isSavingRef := isSavingRef h;
     isOnlineRef := isOnlineRef h; clock := clock h; timers := timers h;
     nextTimerId := nextTimerId h; awaiting := a;
     saveCalls := saveCalls h; backups := backups h |}.

Definition setSaveCalls (c : list (Z * BlogPost)) (h : Hook) : Hook :=
  {| isSaving := isSaving h; lastSavedAt := lastSavedAt h; error := error h;
     debounceTimerRef := debounceTimerRef h; retryCountRef := retryCountRef h;
     pendingDataRef := pendingDataRef h; isSavingRef := isSavingRef h;
     isOnlineRef := isOnlineRef h; clock := clock h; timers := timers h;
     nextTimerId := nextTimerId h; awaiting := awaiting h;
     saveCalls := c; backups := backups h |}.

Definition setBackups (b : list (string * BlogPost * Z)) (h : Hook) : Hook :=
  {| isSaving := isSaving h; lastSavedAt := lastSavedAt h; error := error h;
     debounceTimerRef := debounceTimerRef h; retryCountRef := retryCountRef h;
     pendingDataRef := pendingDataRef h; isSavingRef := isSavingRef h;
     isOnlineRef := isOnlineRef h; clock := clock h; timers := timers h;
     nextTimerId := nextTimerId h; awaiting := awaiting h;
     saveCalls := saveCalls h; backups := b |}.

(** [setTimeout(callback, delay)]: the timer is due [delay] (at least 0)
    from now; the timer's id is returned. *)
Definition setTimeout (cb : Callback) (delay : Z) (h : Hook) : Hook * nat :=
  let id := nextTimerId h in
  let timer := {| timerId := id; due := clock h + Z.max 0 delay;
                  callback := cb |} in
  (setNextTimerId (S id) (setTimers (timers h ++ [timer]) h), id).

(** [clearTimeout(id)] *)
Definition clearTimeout (id : nat) (h : Hook) : Hook :=
  setTimers (List.filter (fun t => negb (timerId t =? id)%nat) (timers h)) h.

(** [saveToLocalStorage]: the write of the draft under
    [blog_draft_<id or 'new'>]; a failure of the write is swallowed. *)
Definition saveToLocalStorage (d : BlogPost) (h : Hook) : Hook :=
  let key := "blog_draft_" +:+ orElse (post_id d) "new" in
  setBackups (backups h ++ [(key, d, clock h)]) h.

(** [executeAutoSave(data, attemptNumber)] up to [await onSave(data)]. *)
Definition executeAutoSave (d : BlogPost) (attempt : Z) (h : Hook) : Hook :=
  if isSavingRef h then setPendingDataRef (Some d) h
  else if negb (isOnlineRef h) then
    saveToLocalStorage d (setPendingDataRef (Some d) h)
  else
    let h := setSaving true h in
    let h := setRetryCountRef (attempt - 1) h in
    let h := saveToLocalStorage d h in
    let h := setSaveCalls (saveCalls h ++ [(clock h, d)]) h in
    setAwaiting (awaiting h ++ [{| data := d; attemptNumber := attempt |}]) h.

(** The rest of [executeAutoSave], once [onSave(data)] has settled: the
    end of the try block or the catch block, then the finally block.
    ([attemptNumber] is at least 1 in every call, so the exponent of
    [Math.pow(2, attemptNumber - 1)] is a natural number.) *)
Definition resume (o : Options) (s : Suspended) (r : Settled) (h : Hook)
  : Hook :=
  let h :=
    match r with
    | Fulfilled =>
        let h := setLastSavedAt (Some (clock h)) h in
        let h := setError None h in
        let h := setPendingDataRef None h in
        setRetryCountRef 0 h
    | Rejected reason =>
        let message :=
          match reason with
          | ErrorObject m => m
          | OtherValue => "Auto-save failed"
          end in
        let h := setError (Some message) h in
        if attemptNumber s <? maxRetries o then
          let backoffDelay := retryDelay o * 2 ^ (attemptNumber s - 1) in
          (setTimeout (RetryCallback (attemptNumber s)) backoffDelay h).1
        else h
    end in
  setSaving false h.

(** The [k]-th pending [onSave] promise settles. *)
Definition settle (o : Options) (k : nat) (r : Settled) (h : Hook) : Hook :=
  match awaiting h !! k with
  | Some s => resume o s r (setAwaiting (delete k (awaiting h)) h)
  | None => h
  end.

(** What a timer runs when it fires. *)
Definition runCallback (cb : Callback) (h : Hook) : Hook :=
  match cb, pendingDataRef h with
  | DebounceCallback, Some d => executeAutoSave d 1 h
  | RetryCallback n, Some d => executeAutoSave d (n + 1) h
  | _, None => h
  end.

(** [autoSave(data)] *)
Definition autoSave (o : Options) (d : BlogPost) (h : Hook) : Hook :=
  let h := setPendingDataRef (Some d) h in
  let h :=
    match debounceTimerRef h with
    | Some id => clearTimeout id h
    | None => h
    end in
  let '(h, id) := setTimeout DebounceCallback (debounceDelay o) h in
  setDebounceTimerRef (Some id) h.

(** The listeners of [online], [offline] and [beforeunload]. *)
Definition handleOnline (h : Hook) : Hook :=
  let h := setIsOnlineRef true h in
  match pendingDataRef h with
  | Some d => executeAutoSave d 1 h
  | None => h
  end.

Definition handleOffline (h : Hook) : Hook := setIsOnlineRef false h.

Definition handleBeforeUnload (h : Hook) : Hook :=
  match pendingDataRef h with
  | Some d =>
      if isSavingRef h then
        let h :=
          match debounceTimerRef h with
          | Some id => clearTimeout id h
          | None => h
          end in
        saveToLocalStorage d h
      else h
  | None => h
  end.

(** [clearError] *)
Definition clearError (h : Hook) : Hook := setError None h.

(** The timer that fires next among those due by [limit]: the earliest
    due, the oldest among equals. *)
Definition earlier (a b : Timer) : bool :=
  (due a <? due b) || ((due a =? due b) && (timerId a <=? timerId b)%nat).

Fixpoint nextDue (limit : Z) (ts : list Timer) : option Timer :=
  match ts with
  | [] => None
  | t :: ts' =>
      match nextDue limit ts' with
      | Some t' => if (due t <=? limit) && earlier t t' then Some t else Some t'
      | None => if due t <=? limit then Some t else None
      end
  end.

(** Fire the timers due by [limit], one after the other. *)
Fixpoint fireDue (fuel : nat) (limit : Z) (h : Hook) : Hook :=
  match fuel with
  | O => h
  | S fuel' =>
      match nextDue limit (timers h) with
      | None => h
      | Some t =>
          let h := clearTimeout (timerId t) h in
          let h := setClock (Z.max (clock h) (due t)) h in
          fireDue fuel' limit (runCallback (callback t) h)
      end
  end.

(** [dt] milliseconds pass.  No callback of the hook sets a timer while
    it runs, so there are at most as many firings as timers. *)
Definition elapse (dt : Z) (h : Hook) : Hook :=
  let limit := clock h + Z.max 0 dt in
  setClock limit (fireDue (List.length (timers h)) limit h).

Inductive Event :=
| AutoSaveCall (d : BlogPost)
| Elapse (dt : Z)
| Settle (k : nat) (r : Settled)
| Online
| Offline
| BeforeUnload
| ClearError.

Definition step (o : Options) (h : Hook) (e : Event) : Hook :=
  match e with
  | AutoSaveCall d => autoSave o d h
  | Elapse dt => elapse dt h
  | Settle k r => settle o k r h
  | Online => handleOnline h
  | Offline => handleOffline h
  | BeforeUnload => handleBeforeUnload h
  | ClearError => clearError h
  end.

Definition run (o : Options) (events : list Event) (h : Hook) : Hook :=
  fold_left (step o) events h.

(** A burst of [autoSave] calls: each call is followed by a pause, then
    comes the last call. *)
Definition burst (calls : list (BlogPost * Z)) (last : BlogPost) : list Event :=
  flat_map (fun '(d, gap) => [AutoSaveCall d; Elapse gap]) calls
  ++ [AutoSaveCall last].

(** Nothing is pending: no save runs, no timer is set. *)
Definition idle (h : Hook) : Prop :=
  awaiting h = [] /\ timers h = [] /\ isSavingRef h = false.

End AutoSave.

(** ** Image handler (the image utilities that come with the hook) *)

Module ImageHandler.

Definition MAX_FILE_SIZE : Z := 10 * 1024 * 1024.

Definition ALLOWED_FORMATS : list string :=
  ["image/jpeg"; "image/png"; "image/webp"; "image/gif"].

(** What the utilities read of a [File]. *)
Record File := {
  file_name : string;
  file_size : Z;
  file_type : string;
}.

Record Validation := {
  valid : bool;
  validation_error : option string;
}.

(** [ALLOWED_FORMATS.includes(type)] *)
Definition includes (formats : list string) (type : string) : bool :=
  existsb (fun f => (f =? type)%string) formats.

(** [validateImageFile]; the messages are the template strings with the
    constants filled in. *)
Definition validateImageFile (file : File) : Validation :=
  if MAX_FILE_SIZE <? file_size file then
    {| valid := false;
       validation_error := Some "File size exceeds 10.0MB limit" |}
  else if negb (includes ALLOWED_FORMATS (file_type file)) then
    {| valid := false;
       validation_error :=
         Some "Unsupported format. Allowed: image/jpeg, image/png, image/webp, image/gif" |}
  else {| valid := true; validation_error := None |}.

(** [Math.round(p / q)] for integers [p] and [0 < q]: halves go up. *)
Definition roundDiv (p q : Z) : Z := (2 * p + q) / (2 * q).

(** The canvas size that [compressImage] computes from the natural size
    of the image. *)
Definition scaledSize (width height maxWidth maxHeight : Z) : Z * Z :=
  if height <? width then
    if maxWidth <? width then (maxWidth, roundDiv (height * maxWidth) width)
    else (width, height)
  else
    if maxHeight <? height then (roundDiv (width * maxHeight) height, maxHeight)
    else (width, height).

(** The local [gcd] of [getImageAspectRatio]:
    [(a, b) => (b === 0 ? a : gcd(b, a % b))], where [%] truncates.  The
    second argument shrinks in absolute value at every call, so
    [|b| + 1] calls are enough. *)
Fixpoint gcdLoop (calls : nat) (a b : Z) : Z :=
  match calls with
  | O => a
  | S calls' => if b =? 0 then a else gcdLoop calls' b (Z.rem a b)
  end.

Definition gcd (a b : Z) : Z := gcdLoop (S (Z.abs_nat b)) a b.

(** [getImageAspectRatio]: [null] when a side is missing or 0, else the
    two sides divided by their gcd, written [w/h]. *)
Definition getImageAspectRatio (width height : option Z) : option string :=
  match width, height with
  | Some w, Some h =>
      if (w =? 0) || (h =? 0) then None
      else
        let divisor := gcd w h in
        Some (pretty (Z.quot w divisor) +:+ "/" +:+ pretty (Z.quot h divisor))
  | _, _ => None
  end.

(** [getImageSizeCategory]: [size / 1024] against 100, 500, 1000, 5000. *)
Definition getImageSizeCategory (size : Z) : string :=
  if size <? 100 * 1024 then "tiny"
  else if size <? 500 * 1024 then "small"
  else if size <? 1000 * 1024 then "medium"
  else if size <? 5000 * 1024 then "large"
  else "huge".

End ImageHandler.

(** ** More of the browser double *)

(** An environment and an input with which [createPost] makes a record that the
    browser double reads back. *)
Definition Double_env : Ambient :=
  {| idMillis := 1700000000000; idRandom := "k3j9x0a1b";
     isoNow := "2024-01-01T00:00:00.000Z"; slugMillis := 1700000000001 |}.

Definition Double_input : BlogPostCreateInput :=
  {| input_title := "Title"; authorName := "Ann";
     authorEmail := "ann@example.org" |}.

(** ** Shapes of the autosave trace (used to state its invariants) *)

Module AutoSaveTrace.
Import AutoSave.

(** The key under which [saveToLocalStorage] writes a draft. *)
Definition draftKey (d : BlogPost) : string :=
  "blog_draft_" +:+ orElse (post_id d) "new".

(** Each call of [onSave] has its backup: the same payload, written at
    the same time under the draft key. *)
Definition backedUp (h : Hook) : Prop :=
  forall t d, (t, d) ∈ saveCalls h -> (draftKey d, d, t) ∈ backups h.

End AutoSaveTrace.

(** * Properties *)

(** ** Character classes *)

Ltac each_char c :=
  destruct c as [[] [] [] [] [] [] [] []]; vm_compute; try reflexivity;
  try discriminate; auto.

Lemma lowerChar_not_upper c : Js.isUpper (Js.lowerChar c) = false.
Proof. each_char c. Qed.

Lemma slugChar_lowerChar c : slugChar c = true -> Js.lowerChar c = c.
Proof. each_char c. Qed.

Lemma slugChar_not_space c : slugChar c = true -> Js.isSpace c = false.
Proof. each_char c. Qed.

Lemma slugChar_not_upper c : slugChar c = true -> Js.isUpper c = false.
Proof. each_char c. Qed.

Lemma slugChar_kept c :
  slugChar c = true -> Js.isWord c || Js.isSpace c || Js.isHyphen c = true.
Proof. each_char c. Qed.

Lemma kept_slugChar c :
  Js.isUpper c = false ->
  Js.isWord c || Js.isSpace c || Js.isHyphen c = true ->
  Js.isSpace c = false -> slugChar c = true.
Proof. each_char c. Qed.

Lemma isHyphen_eq c : Js.isHyphen c = true -> c = Js.hyphen.
Proof. each_char c. Qed.

Lemma slugChar_hyphen : slugChar Js.hyphen = true.
Proof. reflexivity. Qed.

(** ** Lemmas on the string primitives *)

Section Runs.

Variable p : ascii -> bool.

Lemma dropWhile_suffix s : exists d, s = d ++ Js.dropWhile p s.
Proof.
  induction s as [|c s [d IH]]; simpl.
  - by exists [].
  - destruct (p c).
    + exists (c :: d). simpl. by rewrite <- IH.
    + by exists [].
Qed.

Lemma dropWhile_headNot s : headNot p (Js.dropWhile p s) = true.
Proof.
  induction s as [|c s IH]; simpl; [done|].
  destruct (p c) eqn:E; [done|]. simpl. by rewrite E.
Qed.

Lemma dropWhile_id s : headNot p s = true -> Js.dropWhile p s = s.
Proof.
  destruct s as [|c s]; simpl; [done|].
  by destruct (p c).
Qed.

Lemma dropWhileEnd_cons c s :
  Js.dropWhileEnd p (c :: s) =
  match Js.dropWhileEnd p s with
  | [] => if p c then [] else [c]
  | kept => c :: kept
  end.
Proof. reflexivity. Qed.

Lemma dropWhileEnd_prefix s : exists d, s = Js.dropWhileEnd p s ++ d.
Proof.
  induction s as [|c s [d IH]].
  - by exists [].
  - rewrite dropWhileEnd_cons.
    destruct (Js.dropWhileEnd p s) as [|k ks].
    + destruct (p c).
      * exists (c :: s). done.
      * exists d. simpl in *. by rewrite <- IH.
    + exists d. simpl in *. by rewrite <- IH.
Qed.

Lemma lastNot_cons c s :
  s <> [] -> lastNot p (c :: s) = lastNot p s.
Proof. destruct s; [done|]. intros _. reflexivity. Qed.

Lemma dropWhileEnd_lastNot s : lastNot p (Js.dropWhileEnd p s) = true.
Proof.
  induction s as [|c s IH]; [done|].
  rewrite dropWhileEnd_cons.
  destruct (Js.dropWhileEnd p s) as [|k ks] eqn:E.
  - destruct (p c) eqn:Ec; [done|]. unfold lastNot. simpl. by rewrite Ec.
  - by rewrite lastNot_cons.
Qed.

Lemma dropWhileEnd_id s : lastNot p s = true -> Js.dropWhileEnd p s = s.
Proof.
  induction s as [|c s IH]; [done|].
  intros H. rewrite dropWhileEnd_cons.
  destruct s as [|c' s'].
  - simpl. unfold lastNot in H. simpl in H. by destruct (p c).
  - rewrite lastNot_cons in H by done.
    rewrite (IH H). done.
Qed.

Lemma dropWhileEnd_headNot s :
  headNot p s = true -> headNot p (Js.dropWhileEnd p s) = true.
Proof.
  destruct s as [|c s]; [done|].
  rewrite dropWhileEnd_cons. simpl. intros H.
  destruct (Js.dropWhileEnd p s); [|done].
  destruct (p c) eqn:E; [done|]. simpl. by rewrite E.
Qed.

Lemma noDouble_cons c s :
  noDouble p (c :: s) = true -> noDouble p s = true.
Proof.
  destruct s as [|c' s]; [done|].
  simpl. intros H. apply andb_true_iff in H. tauto.
Qed.

Lemma noDouble_app_l s d : noDouble p (s ++ d) = true -> noDouble p s = true.
Proof.
  induction s as [|c s IH]; [done|].
  destruct s as [|c' s']; [done|].
  intros H. change (negb (p c && p c') && noDouble p ((c' :: s') ++ d) = true) in H.
  apply andb_true_iff in H as [H1 H2].
  change (negb (p c && p c') && noDouble p (c' :: s') = true).
  rewrite H1. simpl. apply IH, H2.
Qed.

Lemma noDouble_app_r d s : noDouble p (d ++ s) = true -> noDouble p s = true.
Proof.
  induction d as [|c d IH]; [done|].
  intros H. apply IH. eapply noDouble_cons. exact H.
Qed.

(** Replacing the runs of a class leaves what has no character of it. *)
Lemma replaceRuns_none r s :
  forallb (fun c => negb (p c)) s = true -> Js.replaceRuns p r s = s.
Proof.
  induction s as [|c s IH]; [done|].
  simpl. intros H. apply andb_true_iff in H as [H1 H2].
  destruct (p c); [done|]. by rewrite IH.
Qed.

Lemma replaceRuns_forall (Q : ascii -> bool) r s :
  forallb Q r = true ->
  forallb (fun c => p c || Q c) s = true ->
  forallb Q (Js.replaceRuns p r s) = true.
Proof.
  intros Hr. induction s as [|c s IH]; [done|].
  intros H. simpl in H. apply andb_true_iff in H as [H1 H2].
  specialize (IH H2). simpl.
  destruct (p c) eqn:E.
  - destruct s as [|c' s']; [done|].
    destruct (p c'); [done|].
    rewrite forallb_app. by rewrite Hr.
  - simpl in H1. simpl. by rewrite H1.
Qed.

End Runs.

(** Collapsing the runs of hyphens leaves no two adjacent hyphens. *)
Lemma replaceRuns_noDouble s :
  noDouble Js.isHyphen (Js.replaceRuns Js.isHyphen [Js.hyphen] s) = true.
Proof.
  induction s as [|c s IH]; [done|].
  simpl. destruct (Js.isHyphen c) eqn:E.
  - destruct s as [|c' s']; [done|].
    destruct (Js.isHyphen c') eqn:E'; [done|].
    simpl in *. rewrite E' in *. simpl.
    destruct (Js.replaceRuns Js.isHyphen [Js.hyphen] s') eqn:R.
    + simpl. by rewrite E'.
    + change (negb (Js.isHyphen Js.hyphen && Js.isHyphen c') && noDouble Js.isHyphen (c' :: a :: l) = true).
      rewrite E'. rewrite andb_false_r. simpl. exact IH.
  - destruct (Js.replaceRuns Js.isHyphen [Js.hyphen] s) eqn:R; [done|].
    change (negb (Js.isHyphen c && Js.isHyphen a) && noDouble Js.isHyphen (a :: l) = true).
    rewrite E. simpl. exact IH.
Qed.

(** Collapsing changes nothing where no two hyphens are adjacent. *)
Lemma replaceRuns_collapsed s :
  noDouble Js.isHyphen s = true ->
  Js.replaceRuns Js.isHyphen [Js.hyphen] s = s.
Proof.
  induction s as [|c s IH]; [done|].
  intros H. pose proof (noDouble_cons _ _ _ H) as H'.
  specialize (IH H'). simpl.
  destruct (Js.isHyphen c) eqn:E.
  - apply isHyphen_eq in E as ->.
    destruct s as [|c' s']; [done|].
    simpl in H. apply andb_true_iff in H as [H1 _].
    destruct (Js.isHyphen c') eqn:E'; [done|].
    by rewrite IH.
  - by rewrite IH.
Qed.

Lemma forallb_dropWhile (Q p : ascii -> bool) s :
  forallb Q s = true -> forallb Q (Js.dropWhile p s) = true.
Proof.
  intros H. destruct (dropWhile_suffix p s) as [d E].
  rewrite E, forallb_app in H. apply andb_true_iff in H. tauto.
Qed.

Lemma forallb_dropWhileEnd (Q p : ascii -> bool) s :
  forallb Q s = true -> forallb Q (Js.dropWhileEnd p s) = true.
Proof.
  intros H. destruct (dropWhileEnd_prefix p s) as [d E].
  rewrite E, forallb_app in H. apply andb_true_iff in H. tauto.
Qed.

Lemma forallb_keepOnly (Q p : ascii -> bool) s :
  forallb Q s = true ->
  forallb (fun c => p c && Q c) (Js.keepOnly p s) = true.
Proof.
  induction s as [|c s IH]; [done|].
  simpl. intros H. apply andb_true_iff in H as [H1 H2].
  destruct (p c) eqn:E; [|by apply IH].
  simpl. rewrite E, H1. simpl. by apply IH.
Qed.

Lemma keepOnly_id (p : ascii -> bool) s :
  forallb p s = true -> Js.keepOnly p s = s.
Proof.
  induction s as [|c s IH]; [done|].
  simpl. intros H. apply andb_true_iff in H as [H1 H2].
  rewrite H1. by rewrite IH.
Qed.

Lemma forallb_impl (P Q : ascii -> bool) s :
  (forall c, P c = true -> Q c = true) ->
  forallb P s = true -> forallb Q s = true.
Proof.
  intros HPQ. induction s as [|c s IH]; [done|].
  simpl. intros H. apply andb_true_iff in H as [H1 H2].
  rewrite (HPQ _ H1). by apply IH.
Qed.

Lemma forallb_head (Q : ascii -> bool) s c :
  forallb Q s = true -> head s = Some c -> Q c = true.
Proof.
  destruct s as [|c' s]; [done|].
  simpl. intros H [= ->]. apply andb_true_iff in H. tauto.
Qed.

Lemma toLowerCase_not_upper t :
  forallb (fun c => negb (Js.isUpper c)) (Js.toLowerCase t) = true.
Proof.
  induction t as [|c t IH]; [done|].
  simpl. by rewrite lowerChar_not_upper.
Qed.

Lemma toLowerCase_id s : forallb slugChar s = true -> Js.toLowerCase s = s.
Proof.
  induction s as [|c s IH]; [done|].
  simpl. intros H. apply andb_true_iff in H as [H1 H2].
  rewrite (slugChar_lowerChar _ H1). by rewrite IH.
Qed.

Lemma headNot_of_forallb (p : ascii -> bool) s :
  forallb (fun c => negb (p c)) s = true -> headNot p s = true.
Proof.
  destruct s as [|c s]; [done|].
  simpl. intros H. apply andb_true_iff in H. tauto.
Qed.

Lemma lastNot_of_forallb (p : ascii -> bool) s :
  forallb (fun c => negb (p c)) s = true -> lastNot p s = true.
Proof.
  induction s as [|c s IH]; [done|].
  simpl. intros H. apply andb_true_iff in H as [H1 H2].
  destruct s as [|c' s'].
  - unfold lastNot. simpl. done.
  - rewrite lastNot_cons by done. by apply IH.
Qed.

Lemma trim_id s :
  forallb (fun c => negb (Js.isSpace c)) s = true -> Js.trim s = s.
Proof.
  intros H. unfold Js.trim.
  rewrite (dropWhile_id _ _ (headNot_of_forallb _ _ H)).
  apply dropWhileEnd_id, lastNot_of_forallb, H.
Qed.

(** The slug of any title is in normal form. *)
Lemma slugChars_shape t : slugShape (slugChars t).
Proof.
  unfold slugChars.
  set (L1 := Js.trim (Js.toLowerCase t)).
  set (K := fun c => Js.isWord c || Js.isSpace c || Js.isHyphen c).
  set (L2 := Js.keepOnly K L1).
  set (L3 := Js.replaceRuns Js.isSpace [Js.hyphen] L2).
  set (L4 := Js.replaceRuns Js.isHyphen [Js.hyphen] L3).
  assert (H1 : forallb (fun c => negb (Js.isUpper c)) L1 = true).
  { apply forallb_dropWhileEnd, forallb_dropWhile, toLowerCase_not_upper. }
  assert (H2 : forallb (fun c => K c && negb (Js.isUpper c)) L2 = true).
  { apply forallb_keepOnly, H1. }
  assert (H3 : forallb slugChar L3 = true).
  { apply replaceRuns_forall; [done|].
    revert H2. apply forallb_impl. intros c Hc.
    apply andb_true_iff in Hc as [Hk Hu].
    destruct (Js.isSpace c) eqn:Es; [done|]. simpl.
    apply kept_slugChar; [by destruct (Js.isUpper c)|exact Hk|exact Es]. }
  assert (H4 : forallb slugChar L4 = true).
  { apply replaceRuns_forall; [done|].
    revert H3. apply forallb_impl. intros c ->. apply orb_true_r. }
  assert (N4 : noDouble Js.isHyphen L4 = true) by apply replaceRuns_noDouble.
  unfold Js.stripEnds. repeat split.
  - apply forallb_dropWhileEnd, forallb_dropWhile, H4.
  - destruct (dropWhileEnd_prefix Js.isHyphen (Js.dropWhile Js.isHyphen L4)) as [d E].
    destruct (dropWhile_suffix Js.isHyphen L4) as [d' E'].
    rewrite E' in N4. apply noDouble_app_r in N4.
    rewrite E in N4. by apply noDouble_app_l in N4.
  - apply dropWhileEnd_headNot, dropWhile_headNot.
  - apply dropWhileEnd_lastNot.
Qed.

(** A slug in normal form is its own slug. *)
Lemma slugChars_fixed s : slugShape s -> slugChars s = s.
Proof.
  intros (Hc & Hd & Hh & Hl). unfold slugChars.
  assert (Hs : forallb (fun c => negb (Js.isSpace c)) s = true).
  { revert Hc. apply forallb_impl. intros c Hc.
    by rewrite (slugChar_not_space _ Hc). }
  rewrite (toLowerCase_id _ Hc), (trim_id _ Hs).
  rewrite keepOnly_id
    by (revert Hc; apply forallb_impl; intros c Hc; by apply slugChar_kept).
  rewrite (replaceRuns_none _ _ _ Hs), (replaceRuns_collapsed _ Hd).
  unfold Js.stripEnds.
  rewrite (dropWhile_id _ _ Hh). by apply dropWhileEnd_id.
Qed.

Lemma chars_str l : Js.chars (Js.str l) = l.
Proof. apply list_ascii_of_string_of_list_ascii. Qed.

Lemma noDouble_no_pair (p : ascii -> bool) s l1 a b l2 :
  noDouble p s = true -> s = l1 ++ a :: b :: l2 ->
  p a = true -> p b = true -> False.
Proof.
  intros H -> Ha Hb. apply noDouble_app_r in H.
  simpl in H. rewrite Ha, Hb in H. done.
Qed.

(** C10. [generateSlug] is idempotent, and its result has no white space,
    no upper-case letter, no two consecutive hyphens, and no hyphen at
    either end. *)
Theorem generateSlug_idempotent_normal (t : string) :
  generateSlug (generateSlug t) = generateSlug t
  /\ Forall (fun c => Js.isSpace c = false) (Js.chars (generateSlug t))
  /\ Forall (fun c => Js.isUpper c = false) (Js.chars (generateSlug t))
  /\ (forall l1 l2,
        Js.chars (generateSlug t) <> l1 ++ "-"%char :: "-"%char :: l2)
  /\ head (Js.chars (generateSlug t)) <> Some "-"%char
  /\ last (Js.chars (generateSlug t)) <> Some "-"%char.
Proof.
  unfold generateSlug. rewrite !chars_str.
  pose proof (slugChars_shape (Js.chars t)) as Hshape.
  split; [by rewrite (slugChars_fixed _ Hshape)|].
  destruct Hshape as (Hc & Hd & Hh & Hl).
  set (s := slugChars (Js.chars t)) in *.
  split; [|split; [|split; [|split]]].
  - apply Forall_forall. intros c Hin. apply slugChar_not_space.
    rewrite forallb_forall in Hc. apply Hc. by apply list_elem_of_In.
  - apply Forall_forall. intros c Hin. apply slugChar_not_upper.
    rewrite forallb_forall in Hc. apply Hc. by apply list_elem_of_In.
  - intros l1 l2 E. by apply (noDouble_no_pair _ _ _ _ _ _ Hd E).
  - intros E. destruct s as [|c s']; [done|]. simpl in *.
    injection E as ->. done.
  - intros E. unfold lastNot in Hl. rewrite E in Hl. done.
Qed.

(** ** The record store *)

(** The percentage is rounded from the double, not from the exact quotient:
    3014656 bytes are exactly 57.5 % of the limit, the double product is
    just below 57.5, and [usedPercent] is 57. *)
Lemma getStorageStats_rounds_the_double :
  let B := {| JSON_stringify := Double.write "";
              JSON_stringify_indent := Double.write " ";
              JSON_parse := Double.read;
              Blob_size := fun _ => 3014656;
              quotaAllows := fun _ _ _ => true |} in
  getStorageStats B ∅ = (3014656, 5242880, 57, 0)
  /\ (2 * 3014656 * 100 + MAX_STORAGE_SIZE) / (2 * MAX_STORAGE_SIZE) = 58.
Proof. split; vm_compute; reflexivity. Qed.

Lemma findIndexFrom_range i id posts :
  findIndexFrom i id posts = -1 \/
  (i <= findIndexFrom i id posts < i + Z.of_nat (List.length posts)).
Proof.
  revert i. induction posts as [|p posts IH]; intros i; simpl; [by left|].
  destruct (post_id p =? id)%string; [right; lia|].
  destruct (IH (i + 1)) as [->|H]; [by left|right; lia].
Qed.

Lemma findIndexFrom_none i id posts :
  0 <= i ->
  (findIndexFrom i id posts = -1 <-> id ∉ map post_id posts).
Proof.
  revert i. induction posts as [|p posts IH]; intros i Hi; simpl.
  - split; [intros _; apply not_elem_of_nil|done].
  - destruct (String.eqb_spec (post_id p) id) as [E|E].
    + split; [lia|].
      intros H. exfalso. apply H. rewrite E. apply list_elem_of_here.
    + rewrite IH by lia.
      rewrite not_elem_of_cons. split; [intros ?; split; [congruence|done]|tauto].
Qed.

Lemma findIndex_none id posts :
  findIndex id posts = -1 <-> id ∉ map post_id posts.
Proof. by apply findIndexFrom_none. Qed.



Lemma ltb_gt_true a b : a < b -> (a <? b) = true.
Proof. apply Z.ltb_lt. Qed.

Section RecordStoreFacts.

Variable B : Browser.

Lemma getAllPosts_empty : getAllPosts B ∅ = [].
Proof. reflexivity. Qed.

(** What a successful [updatePost] returned and stored. *)
Lemma updatePost_returned env id updates ls post' ls' :
  updatePost B env id updates ls = (Some post', ls') ->
  exists (i : nat) post,
    findIndex id (getAllPosts B ls) = Z.of_nat i
    /\ getAllPosts B ls !! i = Some post
    /\ post' = updatedPostOf post updates (isoNow env)
    /\ getObjectSize B (<[i := post']> (getAllPosts B ls)) <= MAX_STORAGE_SIZE
    /\ ls' = <[STORAGE_KEY :=
                JSON_stringify B (<[i := post']> (getAllPosts B ls))]> ls.
Proof.
  unfold updatePost. intros H.
  destruct (findIndex id (getAllPosts B ls) =? -1) eqn:E; [done|].
  apply Z.eqb_neq in E.
  destruct (findIndexFrom_range 0 id (getAllPosts B ls)) as [?|Hr]; [done|].
  fold (findIndex id (getAllPosts B ls)) in Hr.
  destruct (getAllPosts B ls !! Z.to_nat (findIndex id (getAllPosts B ls)))
    as [post|] eqn:El; [|done].
  destruct (MAX_STORAGE_SIZE <? _) eqn:Es; [done|].
  apply Z.ltb_ge in Es.
  unfold setItem in H. destruct (quotaAllows B _ _ _); [|done].
  injection H as <- <-.
  exists (Z.to_nat (findIndex id (getAllPosts B ls))), post.
  split; [lia|]. done.
Qed.


End RecordStoreFacts.

(** *** Capacity: a write that would exceed the cap *)

(** C1. For each of [createPost], [updatePost], [duplicatePost] and
    [importPostsFromJson] and every localStorage: when the collection the
    operation is about to write serializes to more than 5 MiB, the
    operation fails (it throws, returns [null], or reports
    [success: false]) and localStorage is left as it was. *)
Theorem oversize_write_rejected (B : Browser) :
  (forall env input ls,
      MAX_STORAGE_SIZE
        < getObjectSize B (getAllPosts B ls ++ [newPostOf env input]) ->
      exists e, createPost B env input ls = (Thrown e, ls))
  /\ (forall env id updates ls (i : nat) post,
      findIndex id (getAllPosts B ls) = Z.of_nat i ->
      getAllPosts B ls !! i = Some post ->
      MAX_STORAGE_SIZE
        < getObjectSize B
            (<[i := updatedPostOf post updates (isoNow env)]> (getAllPosts B ls)) ->
      updatePost B env id updates ls = (None, ls))
  /\ (forall env id ls post,
      getPostById B id ls = Some post ->
      MAX_STORAGE_SIZE
        < getObjectSize B (getAllPosts B ls ++ [duplicateOf env post]) ->
      duplicatePost B env id ls = (None, ls))
  /\ (forall jsonString ls importedPosts,
      JSON_parse B jsonString = ParsedArray importedPosts ->
      MAX_STORAGE_SIZE
        < getObjectSize B (mergeImported (getAllPosts B ls) importedPosts).1 ->
      exists r, importPostsFromJson B jsonString ls = (r, ls)
                /\ success r = false /\ count r = 0).
Proof.
  repeat split.
  - intros env input ls H. unfold createPost.
    rewrite (ltb_gt_true _ _ H). eauto.
  - intros env id updates ls i post Hi Hl H. unfold updatePost.
    rewrite Hi. destruct (Z.of_nat i =? -1) eqn:E; [done|].
    rewrite Nat2Z.id, Hl. by rewrite (ltb_gt_true _ _ H).
  - intros env id ls post Hp H. unfold duplicatePost.
    rewrite Hp. by rewrite (ltb_gt_true _ _ H).
  - intros jsonString ls importedPosts Hp H. unfold importPostsFromJson.
    rewrite Hp.
    destruct (mergeImported (getAllPosts B ls) importedPosts)
      as [mergedPosts importedCount].
    simpl in H. rewrite (ltb_gt_true _ _ H). eauto.
Qed.

(** The four cases of C1 on the browser double: a store that holds two
    records (3.5 MiB) and a third that does not fit, or three records
    (already past the cap) of which one is updated. *)
Lemma oversize_write_rejected_witness :
  let two := Double.holding [Double.post1; Double.post2] in
  let three := Double.holding [Double.post1; Double.post2; Double.post3] in
  (exists e, createPost Double.browser Double.env Double.input two = (Thrown e, two))
  /\ updatePost Double.browser Double.env (post_id Double.post2) noUpdates three
     = (None, three)
  /\ duplicatePost Double.browser Double.env (post_id Double.post1) two
     = (None, two)
  /\ (exists r,
        importPostsFromJson Double.browser
          (Double.write " " [Double.post3]) two = (r, two)
        /\ success r = false /\ count r = 0).
Proof.
  intros two three.
  destruct (oversize_write_rejected Double.browser) as (Hc & Hu & Hd & Hi).
  split; [|split; [|split]].
  - apply Hc. vm_compute. reflexivity.
  - apply (Hu Double.env _ noUpdates three 1%nat Double.post2);
      vm_compute; reflexivity.
  - apply (Hd Double.env _ two Double.post1); vm_compute; reflexivity.
  - apply (Hi _ two [Double.post3]); vm_compute; reflexivity.
Defined.

(** *** Deletion *)

(** [deletePost] answers [false], and writes nothing, when no record has
    the identifier. *)
Lemma deletePost_unknown_id (B : Browser) id ls :
  id ∉ map post_id (getAllPosts B ls) ->
  deletePost B id ls = (false, ls).
Proof.
  intros H. unfold deletePost.
  assert (E : List.filter (fun p => negb (post_id p =? id)%string) (getAllPosts B ls)
              = getAllPosts B ls).
  { induction (getAllPosts B ls) as [|p posts IH]; [done|].
    simpl in *. apply not_elem_of_cons in H as [H1 H2].
    destruct (String.eqb_spec (post_id p) id) as [E|E]; [congruence|].
    simpl. by rewrite IH. }
  rewrite E. by rewrite Nat.eqb_refl.
Qed.

Lemma filter_length_le {A} (f : A -> bool) (l : list A) :
  (List.length (List.filter f l) <= List.length l)%nat.
Proof.
  induction l as [|a l IH]; simpl; [lia|].
  destruct (f a); simpl; lia.
Qed.

(** [deletePost] answers [true] exactly when it removed a record: the
    identifier was there, and the collection without it was written. *)
Lemma deletePost_true (B : Browser) id ls ls' :
  deletePost B id ls = (true, ls') ->
  id ∈ map post_id (getAllPosts B ls)
  /\ ls' = <[STORAGE_KEY :=
              JSON_stringify B
                (List.filter (fun p => negb (post_id p =? id)%string)
                   (getAllPosts B ls))]> ls.
Proof.
  intros H. split.
  - destruct (decide (id ∈ map post_id (getAllPosts B ls))) as [|Hn]; [done|].
    by rewrite (deletePost_unknown_id B id ls Hn) in H.
  - unfold deletePost, setItem in H.
    destruct (_ =? _)%nat; [done|].
    destruct (quotaAllows B _ _ _); [|done].
    by injection H as <-.
Qed.

(** C2 (the code departs from the claim). On an empty localStorage
    [deletePost] answers [false] for every identifier; and on the browser
    double, deleting the same identifier twice answers [true], then
    [false]. *)
Theorem deletePost_missing_id_is_false :
  (forall (B : Browser) id, deletePost B id ∅ = (false, ∅))
  /\ (let ls := Double.holding [Double.post1; Double.post2] in
      let first := deletePost Double.browser (post_id Double.post1) ls in
      let second := deletePost Double.browser (post_id Double.post1) first.2 in
      first.1 = true /\ second.1 = false /\ second.2 = first.2).
Proof.
  split.
  - intros B id. apply deletePost_unknown_id.
    rewrite getAllPosts_empty. apply not_elem_of_nil.
  - vm_compute. repeat split; reflexivity.
Qed.

(** *** Updates *)



(** *** Derived metadata *)

(** [ceilDiv a b] is the quotient rounded up: the least [k] with
    [a <= b * k]. *)
Lemma ceilDiv_spec a b :
  0 < b -> b * (ceilDiv a b - 1) < a <= b * ceilDiv a b.
Proof.
  intros Hb. unfold ceilDiv.
  pose proof (Z.mul_div_le (- a) b Hb).
  pose proof (Z.mul_succ_div_gt (- a) b Hb).
  lia.
Qed.


Lemma createPost_returned (B : Browser) env input ls post ls' :
  createPost B env input ls = (Returned post, ls') ->
  post = newPostOf env input
  /\ ls' = <[STORAGE_KEY :=
              JSON_stringify B (getAllPosts B ls ++ [newPostOf env input])]> ls.
Proof.
  unfold createPost, setItem. intros H.
  destruct (MAX_STORAGE_SIZE <? _); [done|].
  destruct (quotaAllows B _ _ _); [|done].
  by injection H as <- <-.
Qed.




Lemma orElse_empty a : orElse a "" = a.
Proof. unfold orElse. by destruct (String.eqb_spec a ""). Qed.

(** The excerpt of content whose first paragraph is longer than 160
    characters. *)
Lemma extractExcerpt_long title blocks b :
  List.find isParagraph blocks = Some b ->
  160 < Js.length (block_content b) ->
  extractExcerpt title blocks
  = Js.str (Js.trim (Js.substring0 160 (Js.chars (block_content b)))) +:+ "...".
Proof.
  intros Hf Hlen. unfold extractExcerpt. rewrite Hf. simpl.
  rewrite orElse_empty. by rewrite (ltb_gt_true _ _ Hlen).
Qed.

(** C9, as the code has it. When an update carries content whose first
    paragraph block has a text longer than 160 characters, the excerpt of
    the record that a successful [updatePost] returns is the first 160
    characters of that text, with the white space at both ends of these
    160 characters removed, followed by ["..."]; it is exactly the first
    160 characters followed by ["..."] when they neither start nor end
    with white space. *)
Theorem excerpt_of_long_paragraph
    (B : Browser) env id updates blocks b ls post' ls' :
  upd_content updates = Some blocks ->
  List.find isParagraph blocks = Some b ->
  160 < Js.length (block_content b) ->
  updatePost B env id updates ls = (Some post', ls') ->
  let first160 := Js.substring0 160 (Js.chars (block_content b)) in
  excerpt (metadata post') = Js.str (Js.trim first160) +:+ "..."
  /\ (headNot Js.isSpace first160 = true ->
      lastNot Js.isSpace first160 = true ->
      excerpt (metadata post') = Js.str first160 +:+ "...").
Proof.
  intros Hc Hf Hlen H first160.
  apply updatePost_returned in H as (i & post & _ & _ & -> & _ & _).
  unfold updatedPostOf. rewrite Hc. simpl.
  rewrite (extractExcerpt_long _ _ _ Hf Hlen). fold first160.
  split; [done|]. intros Hh Hl. unfold Js.trim.
  rewrite (dropWhile_id _ _ Hh). by rewrite (dropWhileEnd_id _ _ Hl).
Qed.

Lemma excerpt_of_long_paragraph_witness :
  let text := String.concat "" (repeat "words" 33) in
  let updates :=
    {| upd_title := None; upd_slug := None; upd_status := None;
       upd_content := Some [Double.paragraphOf text];
       upd_featuredImage := None; upd_tags := None; upd_seoTitle := None;
       upd_seoDescription := None; upd_seoKeywords := None;
       upd_scheduledAt := None |} in
  exists post',
    (updatePost Double.browser Double.env (post_id Double.post1) updates
       (Double.holding [Double.post1])).1 = Some post'
    /\ excerpt (metadata post')
       = String.concat "" (repeat "words" 32) +:+ "...".
Proof.
  intros text updates.
  destruct (updatePost Double.browser Double.env (post_id Double.post1) updates
              (Double.holding [Double.post1])) as [[post'|] ls'] eqn:E;
    [|vm_compute in E; discriminate].
  destruct (excerpt_of_long_paragraph Double.browser Double.env _ updates
              [Double.paragraphOf text] (Double.paragraphOf text) _ post' ls'
              eq_refl eq_refl ltac:(by vm_compute) E) as [_ Hx].
  exists post'. split; [done|].
  rewrite Hx by (by vm_compute). by vm_compute.
Defined.

(** C9 as stated fails when the first 160 characters end (or start) with
    white space: for 33 repetitions of ["word "] (165 characters) the
    160th character is a space, and the excerpt is 159 characters
    followed by ["..."]. *)
Lemma excerpt_trims_first160 :
  let text := String.concat "" (repeat "word " 33) in
  let updates :=
    {| upd_title := None; upd_slug := None; upd_status := None;
       upd_content := Some [Double.paragraphOf text];
       upd_featuredImage := None; upd_tags := None; upd_seoTitle := None;
       upd_seoDescription := None; upd_seoKeywords := None;
       upd_scheduledAt := None |} in
  160 < Js.length text
  /\ exists post' ls',
       updatePost Double.browser Double.env (post_id Double.post1) updates
         (Double.holding [Double.post1]) = (Some post', ls')
       /\ excerpt (metadata post')
          <> Js.str (Js.substring0 160 (Js.chars text)) +:+ "..."
       /\ Js.length (excerpt (metadata post')) = 159 + 3.
Proof.
  split; [by vm_compute|].
  eexists _, _. split; [vm_compute; reflexivity|].
  split; [by vm_compute|by vm_compute].
Qed.

(** *** Export and import *)

(** The merge loop appends the imported posts whose identifiers are new. *)
Lemma mergeImported_fresh merged n imported :
  NoDup (map post_id (merged ++ imported)) ->
  fold_left mergeStep imported (merged, n)
  = (merged ++ imported, n + Z.of_nat (List.length imported)).
Proof.
  revert merged n. induction imported as [|p imported IH]; intros merged n Hnd.
  - simpl. by rewrite app_nil_r, Z.add_0_r.
  - simpl.
    assert (Hfresh : findIndex (post_id p) merged = -1).
    { apply findIndex_none. rewrite map_app in Hnd.
      apply NoDup_app in Hnd as (_ & Hdisj & _).
      intros Hin. apply (Hdisj _ Hin). simpl. apply list_elem_of_here. }
    rewrite Hfresh. simpl.
    rewrite IH by (by rewrite <- app_assoc).
    rewrite <- app_assoc. simpl. f_equal. lia.
Qed.

Lemma mergeImported_into_empty posts :
  NoDup (map post_id posts) ->
  mergeImported [] posts = (posts, Z.of_nat (List.length posts)).
Proof. intros H. unfold mergeImported. by rewrite mergeImported_fresh. Qed.

(** C6. Let a store hold [posts], with pairwise distinct identifiers and
    a serialized size within the cap, and let [empty] be a localStorage
    without posts.  Importing into [empty] the text that
    [exportPostsAsJson] returns succeeds, counts every record, and leaves
    a store that holds exactly [posts].  (JSON is taken to read back what
    it wrote for [posts], and localStorage to have room for them.) *)
Theorem export_import_roundtrip (B : Browser) ls empty posts :
  getAllPosts B ls = posts ->
  getAllPosts B empty = [] ->
  NoDup (map post_id posts) ->
  getObjectSize B posts <= MAX_STORAGE_SIZE ->
  JSON_parse B (JSON_stringify_indent B posts) = ParsedArray posts ->
  JSON_parse B (JSON_stringify B posts) = ParsedArray posts ->
  JSON_stringify B posts <> "" ->
  quotaAllows B empty STORAGE_KEY (JSON_stringify B posts) = true ->
  exists ls',
    importPostsFromJson B (exportPostsAsJson B ls) empty
    = ({| success := true; count := Z.of_nat (List.length posts);
          error := None |}, ls')
    /\ getAllPosts B ls' = posts.
Proof.
  intros Hls Hempty Hnd Hsize Hindent Hcompact Hne Hq.
  exists (<[STORAGE_KEY := JSON_stringify B posts]> empty).
  unfold exportPostsAsJson, importPostsFromJson.
  rewrite Hls, Hindent, Hempty, (mergeImported_into_empty _ Hnd).
  destruct (MAX_STORAGE_SIZE <? getObjectSize B posts) eqn:E; [lia|].
  unfold setItem. rewrite Hq. split; [done|].
  unfold getAllPosts. rewrite lookup_insert_eq.
  destruct (String.eqb_spec (JSON_stringify B posts) ""); [done|].
  by rewrite Hcompact.
Qed.

Lemma export_import_roundtrip_witness :
  let posts := [Double.post1; Double.post2] in
  exists ls',
    importPostsFromJson Double.browser
      (exportPostsAsJson Double.browser (Double.holding posts)) ∅
    = ({| success := true; count := 2; error := None |}, ls')
    /\ getAllPosts Double.browser ls' = posts.
Proof.
  intros posts.
  apply (export_import_roundtrip Double.browser (Double.holding posts) ∅ posts).
  - vm_compute. reflexivity.
  - reflexivity.
  - apply NoDup_cons. split; [|apply NoDup_singleton].
    intros H. apply list_elem_of_singleton in H. discriminate.
  - vm_compute. discriminate.
  - vm_compute. reflexivity.
  - vm_compute. reflexivity.
  - vm_compute. discriminate.
  - reflexivity.
Defined.

(** ** The autosave controller *)

Module AutoSaveFacts.
Import AutoSave.

(** *** One save at a time *)

(** The flag [isSavingRef] is set exactly while one call of [onSave] is
    pending, and no second call is pending beside it. *)
Definition exclusive (h : Hook) : Prop :=
  (isSavingRef h = false /\ awaiting h = [])
  \/ (isSavingRef h = true /\ exists s, awaiting h = [s]).

Lemma exclusive_executeAutoSave d n h :
  exclusive h -> exclusive (executeAutoSave d n h).
Proof.
  intros [[Hf Ha]|[Hf Ha]]; unfold executeAutoSave; rewrite Hf.
  - destruct (isOnlineRef h); simpl.
    + right. split; [done|]. rewrite Ha. by eexists.
    + by left.
  - by right.
Qed.

Lemma exclusive_runCallback cb h :
  exclusive h -> exclusive (runCallback cb h).
Proof.
  intros H. unfold runCallback.
  destruct cb, (pendingDataRef h); auto using exclusive_executeAutoSave.
Qed.

Lemma exclusive_frame h h' :
  isSavingRef h' = isSavingRef h -> awaiting h' = awaiting h ->
  exclusive h -> exclusive h'.
Proof. unfold exclusive. by intros -> ->. Qed.

Lemma exclusive_fireDue fuel limit h :
  exclusive h -> exclusive (fireDue fuel limit h).
Proof.
  revert h. induction fuel as [|fuel IH]; intros h H; simpl; [done|].
  destruct (nextDue limit (timers h)) as [t|]; [|done].
  apply IH, exclusive_runCallback.
  by apply (exclusive_frame h).
Qed.

Lemma exclusive_settle o k r h : exclusive h -> exclusive (settle o k r h).
Proof.
  intros H. unfold settle.
  destruct (awaiting h !! k) as [s|] eqn:E; [|done].
  destruct H as [[_ Ha]|[_ [s' Ha]]]; rewrite Ha in E; [done|].
  destruct k as [|k]; [|done].
  left. rewrite Ha. unfold resume.
  destruct r as [|reason]; [done|].
  simpl. by destruct (attemptNumber s <? maxRetries o).
Qed.

Lemma exclusive_step o h e : exclusive h -> exclusive (step o h e).
Proof.
  intros H. destruct e as [d|dt|k r| | | |]; simpl.
  - unfold autoSave. simpl.
    destruct (debounceTimerRef h); by apply (exclusive_frame h).
  - unfold elapse. eapply exclusive_frame; [| |by apply exclusive_fireDue, H]; done.
  - by apply exclusive_settle.
  - unfold handleOnline. simpl.
    destruct (pendingDataRef h);
      [apply exclusive_executeAutoSave|]; by apply (exclusive_frame h).
  - by apply (exclusive_frame h).
  - unfold handleBeforeUnload.
    destruct (pendingDataRef h); [|done].
    destruct (isSavingRef h) eqn:E; [|done].
    destruct (debounceTimerRef h); apply (exclusive_frame h); simpl; done.
  - by apply (exclusive_frame h).
Qed.

Lemma exclusive_run o events h : exclusive h -> exclusive (run o events h).
Proof.
  revert h. induction events as [|e events IH]; intros h H; [done|].
  simpl. by apply IH, exclusive_step.
Qed.

(** X1. Whatever happens after the hook is mounted, at most one call of
    [onSave] is pending at any time, and [isSavingRef] says whether one
    is. *)
Theorem one_save_in_flight o now online events :
  let h := run o events (mounted now online) in
  (List.length (awaiting h) <= 1)%nat
  /\ (isSavingRef h = true <-> awaiting h <> []).
Proof.
  intros h.
  assert (H : exclusive h) by (apply exclusive_run; by left).
  destruct H as [[Hf Ha]|[Hf [s Ha]]]; rewrite Hf, Ha; simpl.
  - split; [lia|]. split; [done|]. by intros [].
  - split; [lia|]. done.
Qed.

(** A call of [executeAutoSave] made while a save is pending calls
    neither [onSave] nor [saveToLocalStorage]: it only replaces the
    pending payload. *)
Lemma executeAutoSave_while_saving d n h :
  isSavingRef h = true ->
  executeAutoSave d n h = setPendingDataRef (Some d) h.
Proof. intros H. unfold executeAutoSave. by rewrite H. Qed.

(** *** Time passing *)

Lemma elapse_no_timer dt h :
  timers h = [] -> elapse dt h = setClock (clock h + Z.max 0 dt) h.
Proof. intros H. unfold elapse. by rewrite H. Qed.

Lemma elapse_one_waits dt h t :
  timers h = [t] -> clock h + Z.max 0 dt < due t ->
  elapse dt h = setClock (clock h + Z.max 0 dt) h.
Proof.
  intros H Hlt. unfold elapse. rewrite H. simpl. rewrite H. simpl.
  destruct (due t <=? clock h + Z.max 0 dt) eqn:E; [lia|done].
Qed.

Lemma elapse_one_fires dt h t :
  timers h = [t] -> due t <= clock h + Z.max 0 dt ->
  elapse dt h =
    setClock (clock h + Z.max 0 dt)
      (runCallback (callback t)
         (setClock (Z.max (clock h) (due t)) (setTimers [] h))).
Proof.
  intros H Hle. unfold elapse. rewrite H. simpl. rewrite H. simpl.
  destruct (due t <=? clock h + Z.max 0 dt) eqn:E; [|lia].
  unfold clearTimeout. rewrite H. simpl. by rewrite Nat.eqb_refl.
Qed.

(** *** Coalescing *)

(** The hook between two calls of a burst: nothing is being saved, and
    the only timer, if any, is the debounce timer that
    [debounceTimerRef] names. *)
Definition settled (h : Hook) : Prop :=
  awaiting h = [] /\ isSavingRef h = false
  /\ (timers h = []
      \/ exists t, timers h = [t]
                   /\ debounceTimerRef h = Some (timerId t)).

(** The hook right after [autoSave(d)]: the debounce timer is the only
    timer and is due a full delay from now. *)
Definition armed (o : Options) (d : BlogPost) (h : Hook) : Prop :=
  awaiting h = [] /\ isSavingRef h = false
  /\ pendingDataRef h = Some d
  /\ exists id,
       debounceTimerRef h = Some id
       /\ timers h = [{| timerId := id;
                         due := clock h + Z.max 0 (debounceDelay o);
                         callback := DebounceCallback |}].

Lemma idle_settled h : idle h -> settled h.
Proof. intros (Ha & Ht & Hs). repeat split; auto. Qed.

Lemma autoSave_arms o d h :
  settled h ->
  armed o d (autoSave o d h)
  /\ saveCalls (autoSave o d h) = saveCalls h
  /\ isOnlineRef (autoSave o d h) = isOnlineRef h
  /\ clock (autoSave o d h) = clock h.
Proof.
  intros (Ha & Hs & Ht). unfold autoSave, armed. simpl.
  destruct Ht as [Ht|(t & Ht & Hr)].
  - destruct (debounceTimerRef h); simpl; rewrite ?Ht; simpl;
      (repeat split; [done..|]); by eexists.
  - rewrite Hr. simpl. rewrite Ht. simpl. rewrite Nat.eqb_refl. simpl.
    (repeat split; [done..|]); by eexists.
Qed.

Lemma armed_waits o d h gap :
  armed o d h -> 0 <= gap < debounceDelay o ->
  settled (elapse gap h)
  /\ saveCalls (elapse gap h) = saveCalls h
  /\ isOnlineRef (elapse gap h) = isOnlineRef h.
Proof.
  intros (Ha & Hs & Hp & id & Hr & Ht) Hgap.
  rewrite (elapse_one_waits _ _ _ Ht) by (simpl; lia).
  simpl. repeat split; [done..|].
  right. eexists. split; [exact Ht|done].
Qed.

Lemma armed_fires o d h T :
  armed o d h -> isOnlineRef h = true -> debounceDelay o <= T ->
  let h1 := elapse T h in
  saveCalls h1 = saveCalls h ++ [(clock h + Z.max 0 (debounceDelay o), d)]
  /\ awaiting h1 = [{| data := d; attemptNumber := 1 |}]
  /\ timers h1 = [] /\ isSavingRef h1 = true
  /\ pendingDataRef h1 = Some d /\ isOnlineRef h1 = true
  /\ clock h1 = clock h + Z.max 0 T.
Proof.
  intros (Ha & Hs & Hp & id & Hr & Ht) Hon HT h1. subst h1.
  rewrite (elapse_one_fires _ _ _ Ht) by (simpl; lia).
  simpl. rewrite Hp. unfold executeAutoSave. simpl. rewrite Hs, Hon. simpl.
  rewrite Ha. repeat split; try done.
  do 3 f_equal. lia.
Qed.

Lemma run_app o es1 es2 h : run o (es1 ++ es2) h = run o es2 (run o es1 h).
Proof. unfold run. apply fold_left_app. Qed.

(** After the calls of a burst but the last, the hook is settled and
    has called [onSave] no more than before. *)
Lemma burst_prefix_settled o calls h :
  settled h ->
  Forall (fun c : BlogPost * Z => 0 <= c.2 < debounceDelay o) calls ->
  let h' :=
    run o (flat_map (fun '(d, gap) => [AutoSaveCall d; Elapse gap]) calls) h in
  settled h' /\ saveCalls h' = saveCalls h /\ isOnlineRef h' = isOnlineRef h.
Proof.
  intros Hs Hc. revert h Hs.
  induction Hc as [|[d gap] calls Hgap Hc IH]; intros h Hs; [done|].
  simpl in *.
  destruct (autoSave_arms o d h Hs) as (Harm & Hcalls & Hon & _).
  destruct (armed_waits o d _ gap Harm Hgap) as (Hs' & Hcalls' & Hon').
  destruct (IH _ Hs') as (Hs'' & Hcalls'' & Hon'').
  split; [exact Hs''|split; congruence].
Qed.

(** C3 (corrected: the burst must start with nothing pending and
    online).  Start with a hook in which nothing is pending and which is
    online.  After any burst of [autoSave] calls, each arriving before
    the debounce delay of the previous one has run out, and a silence
    of at least the debounce delay, [onSave] has been called exactly
    once more, with the payload of the last call, and that call is
    the only one pending.  When it succeeds, however long the silence
    lasts, no further call of [onSave] follows: the payloads of the
    earlier calls of the burst are never passed to [onSave]. *)
Theorem burst_commits_last_payload_once o h calls last T :
  idle h -> isOnlineRef h = true ->
  Forall (fun c : BlogPost * Z => 0 <= c.2 < debounceDelay o) calls ->
  debounceDelay o <= T ->
  let h1 := run o (burst calls last ++ [Elapse T]) h in
  map snd (saveCalls h1) = map snd (saveCalls h) ++ [last]
  /\ awaiting h1 = [{| data := last; attemptNumber := 1 |}]
  /\ forall T',
       let h2 := run o [Settle 0 Fulfilled; Elapse T'] h1 in
       map snd (saveCalls h2) = map snd (saveCalls h) ++ [last]
       /\ idle h2 /\ pendingDataRef h2 = None /\ error h2 = None.
Proof.
  intros Hidle Hon Hc HT h1.
  destruct (burst_prefix_settled o calls h (idle_settled _ Hidle) Hc)
    as (Hs & Hcalls & Hon').
  set (h' := run o (flat_map _ calls) h) in *.
  destruct (autoSave_arms o last h' Hs) as (Harm & Hcalls' & Hon'' & _).
  assert (Hon1 : isOnlineRef (autoSave o last h') = true) by congruence.
  destruct (armed_fires o last _ T Harm Hon1 HT) as (H1 & H2 & H3 & H4 & H5 & _).
  assert (E : h1 = elapse T (autoSave o last h')).
  { unfold h1, burst. by rewrite !run_app. }
  rewrite <- E in *. clear E.
  assert (Hp : map snd (saveCalls h1) = map snd (saveCalls h) ++ [last]).
  { rewrite H1, map_app, Hcalls', Hcalls. done. }
  split; [done|]. split; [done|].
  intros T' h2. subst h2. simpl. unfold settle. rewrite H2. simpl.
  rewrite elapse_no_timer by (simpl; by rewrite H3).
  simpl. rewrite H3. done.
Qed.

Lemma burst_commits_last_payload_once_witness :
  let d1 := Double.stub "draft-1" in
  let d2 := Double.stub "draft-2" in
  let d3 := Double.stub "draft-3" in
  let h1 :=
    run defaults (burst [(d1, 1000); (d2, 2999)] d3 ++ [Elapse 3000])
      (mounted 0 true) in
  map snd (saveCalls h1) = [d3]
  /\ awaiting h1 = [{| data := d3; attemptNumber := 1 |}]
  /\ forall T',
       map snd (saveCalls (run defaults [Settle 0 Fulfilled; Elapse T'] h1))
       = [d3].
Proof.
  intros d1 d2 d3 h1.
  destruct (burst_commits_last_payload_once defaults (mounted 0 true)
              [(d1, 1000); (d2, 2999)] d3 3000) as (H1 & H2 & H3).
  - repeat split.
  - reflexivity.
  - repeat constructor; simpl; lia.
  - simpl. lia.
  - split; [exact H1|]. split; [exact H2|].
    intros T'. exact (proj1 (H3 T')).
Defined.

(** C3, as stated for every burst, fails: the hook must have nothing
    pending and be online when the burst starts.
    - A retry is waiting (the save of [v0] has just failed, its retry is
      due in 1000 ms).  [autoSave(v1)], 2000 ms, [autoSave(v2)], then
      silence: the retry timer fires during the burst, reads the pending
      payload and calls [onSave] with the intermediate payload [v1]; the
      debounce timer of [v2] then finds that save pending and only queues
      [v2].  When the save of [v1] succeeds the queue is cleared: [v2] is
      never passed to [onSave].
    - A save is pending when the burst starts: the debounce timer only
      queues the last payload, and [onSave] is not called for the burst.
    - The hook is offline: [onSave] is not called at all. *)
Lemma burst_commit_needs_idle_online :
  let v0 := Double.stub "v0" in
  let v1 := Double.stub "v1" in
  let v2 := Double.stub "v2" in
  let failure := Rejected (ErrorObject "network down") in
  let retrying :=
    run defaults [AutoSaveCall v0; Elapse 3000; Settle 0 failure]
      (mounted 0 true) in
  let busy := run defaults [AutoSaveCall v0; Elapse 3000] (mounted 0 true) in
  let quiet := [Elapse 3000; Settle 0 Fulfilled; Elapse 100000] in
  v1 <> v2
  /\ saveCalls retrying = [(3000, v0)]
  /\ saveCalls (run defaults (burst [(v1, 2000)] v2 ++ [Elapse 3000]) retrying)
     = [(3000, v0); (4000, v1)]
  /\ saveCalls (run defaults (burst [(v1, 2000)] v2 ++ quiet) retrying)
     = [(3000, v0); (4000, v1)]
  /\ saveCalls busy = [(3000, v0)]
  /\ saveCalls (run defaults (burst [(v1, 2000)] v2 ++ quiet) busy)
     = [(3000, v0)]
  /\ saveCalls
       (run defaults (burst [(v0, 1000); (v1, 2000)] v2 ++ [Elapse 100000])
          (mounted 0 false))
     = [].
Proof.
  intros v0 v1 v2 failure retrying busy quiet.
  split; [discriminate|].
  repeat split; vm_compute; reflexivity.
Qed.

(** *** Retries *)

(** Attempt [n] on payload [d] is pending: it is the only pending call,
    no timer is set, [d] is the pending payload, the hook is online. *)
Definition saving (d : BlogPost) (n : Z) (h : Hook) : Prop :=
  awaiting h = [{| data := d; attemptNumber := n |}]
  /\ timers h = [] /\ isSavingRef h = true
  /\ pendingDataRef h = Some d /\ isOnlineRef h = true.




Lemma saving_rejected_exhausted o d n h reason :
  saving d n h -> maxRetries o <= n ->
  let h' := settle o 0 (Rejected reason) h in
  idle h' /\ saveCalls h' = saveCalls h /\ clock h' = clock h
  /\ is_Some (error h') /\ isSaving h' = false
  /\ pendingDataRef h' = Some d.
Proof.
  intros (Ha & Ht & Hs & Hp & Hon) Hn h'. subst h'.
  unfold settle. rewrite Ha. simpl.
  unfold resume. simpl.
  destruct (n <? maxRetries o) eqn:E; [lia|].
  simpl. unfold idle. simpl.
  repeat split; try done; by eexists.
Qed.








(** *** A payload queued while a save is pending *)

(** Whenever a pending [onSave] is fulfilled, the pending payload is
    cleared, whatever it is. *)
Lemma fulfilled_clears_pending o k s h :
  awaiting h !! k = Some s ->
  pendingDataRef (settle o k Fulfilled h) = None.
Proof. intros H. unfold settle. by rewrite H. Qed.

(** C4 (the code departs from the claim). The settling of a pending
    [onSave] never calls [onSave]: a successful one sets no timer
    either, and it clears the pending payload.  So a payload that
    arrives while a save is pending is not flushed when the save
    completes: in both runs below the second payload is queued while
    the first is being saved, the save succeeds, and [onSave] is never
    called with the second payload. *)
Theorem queued_payload_lost_on_success :
  (forall o k r h, saveCalls (settle o k r h) = saveCalls h)
  /\ (forall o k h, timers (settle o k Fulfilled h) = timers h)
  /\ (let d1 := Double.stub "draft-1" in
      let d2 := Double.stub "draft-2" in
      let queued :=
        run defaults
          [AutoSaveCall d1; Elapse 3000; AutoSaveCall d2; Elapse 3000]
          (mounted 0 true) in
      let done := run defaults [Settle 0 Fulfilled; Elapse 600000] queued in
      (pendingDataRef queued = Some d2
       /\ awaiting queued = [{| data := d1; attemptNumber := 1 |}]
       /\ saveCalls queued = [(3000, d1)])
      /\ saveCalls done = [(3000, d1)]
      /\ pendingDataRef done = None /\ timers done = []
      /\ awaiting done = [])
  /\ (let d1 := Double.stub "draft-1" in
      let d2 := Double.stub "draft-2" in
      let done :=
        run defaults
          [AutoSaveCall d1; Elapse 3000; AutoSaveCall d2;
           Settle 0 Fulfilled; Elapse 3000; Elapse 600000]
          (mounted 0 true) in
      saveCalls done = [(3000, d1)]
      /\ pendingDataRef done = None /\ timers done = []
      /\ awaiting done = []).
Proof.
  split; [|split; [|split]].
  - intros o k r h. unfold settle.
    destruct (awaiting h !! k) as [s|]; [|done].
    unfold resume. destruct r as [|reason]; [done|].
    simpl. by destruct (attemptNumber s <? maxRetries o).
  - intros o k h. unfold settle.
    by destruct (awaiting h !! k).
  - vm_compute. done.
  - vm_compute. done.
Qed.

End AutoSaveFacts.

(** * Further properties of the code *)

(** ** Pure helpers of the store *)

(** X2. Every character of a slug is a lower-case ASCII letter, a digit,
    an underscore or a hyphen. *)
Theorem generateSlug_alphabet (t : string) :
  Forall
    (fun c =>
       (97 <= Js.code c <= 122)%N \/ (48 <= Js.code c <= 57)%N
       \/ Js.code c = 95%N \/ Js.code c = 45%N)
    (Js.chars (generateSlug t)).
Proof.
  unfold generateSlug. rewrite chars_str.
  destruct (slugChars_shape (Js.chars t)) as (Hc & _).
  apply Forall_forall. intros c Hin.
  rewrite forallb_forall in Hc. specialize (Hc c).
  rewrite <- list_elem_of_In in Hc. specialize (Hc Hin).
  unfold slugChar, Js.between, Js.isHyphen in Hc.
  repeat (apply orb_true_iff in Hc as [Hc|Hc]).
  - apply andb_true_iff in Hc as [H1 H2].
    apply N.leb_le in H1, H2. left. lia.
  - apply andb_true_iff in Hc as [H1 H2].
    apply N.leb_le in H1, H2. right. left. lia.
  - apply N.eqb_eq in Hc. right. right. left. exact Hc.
  - apply N.eqb_eq in Hc. right. right. right. exact Hc.
Qed.

(** X3. The reading time is the least whole number of minutes, at least
    one, in which [wordCount] words are read at 200 words a minute. *)
Theorem calculateReadingTime_least (wordCount : Z) :
  1 <= calculateReadingTime wordCount
  /\ wordCount <= 200 * calculateReadingTime wordCount
  /\ forall k, 1 <= k -> wordCount <= 200 * k -> calculateReadingTime wordCount <= k.
Proof.
  unfold calculateReadingTime.
  pose proof (ceilDiv_spec wordCount 200 ltac:(lia)) as H.
  repeat split; [lia|lia|]. intros k Hk Hw. lia.
Qed.

Lemma score_stage (c1 c2 : bool) (s p1 p2 : Z) :
  (if c1 then s + p1 else if c2 then s + p2 else s)
  = s + (if c1 then p1 else if c2 then p2 else 0).
Proof. destruct c1, c2; lia. Qed.

Lemma score_stage1 (c : bool) (s p : Z) :
  (if c then s + p else s) = s + (if c then p else 0).
Proof. destruct c; lia. Qed.

Lemma length_empty_iff (s : string) : (s =? "")%string = true -> Js.length s = 0.
Proof. intros E. apply String.eqb_eq in E. by subst. Qed.

(** The points of a text whose length should lie in [lo, hi]. *)
Lemma length_points (s : string) (lo hi best some : Z) :
  0 < lo -> 0 <= some < best ->
  let points :=
    if negb (s =? "")%string && (lo <=? Js.length s) && (Js.length s <=? hi)
    then best
    else if negb (s =? "")%string && (0 <? Js.length s) then some else 0 in
  0 <= points <= best /\ (points = best <-> lo <= Js.length s <= hi).
Proof.
  intros Hlo Hsome points. subst points.
  pose proof (length_empty_iff s) as He.
  destruct (s =? "")%string; cbn [negb andb]; [specialize (He eq_refl); lia|].
  destruct (Z.leb_spec lo (Js.length s)), (Z.leb_spec (Js.length s) hi),
    (Z.ltb_spec 0 (Js.length s)); cbn [andb]; lia.
Qed.

(** X4. The SEO score lies between 0 and 100, and it is 100 exactly when
    the title has 30 to 60 characters, the description 120 to 160, the
    text 300 to 3000 words, there is an image and there are at least
    three keywords. *)
Theorem calculateSeoScore_range title description wordCount hasImages keywordsCount :
  let score :=
    calculateSeoScore title description wordCount hasImages keywordsCount in
  0 <= score <= 100
  /\ (score = 100 <->
      30 <= Js.length title <= 60
      /\ 120 <= Js.length description <= 160
      /\ 300 <= wordCount <= 3000
      /\ hasImages = true
      /\ 3 <= keywordsCount).
Proof.
  unfold calculateSeoScore. cbv zeta.
  rewrite (score_stage _ _ _ 25 (keywordsCount * 8)).
  rewrite (score_stage1 hasImages _ 15).
  rewrite (score_stage _ _ _ 25 12), (score_stage _ _ _ 20 10),
    (score_stage _ _ 0 15 8).
  destruct (length_points title 30 60 15 8) as [Tb Tm]; [lia|lia|].
  destruct (length_points description 120 160 20 10) as [Db Dm]; [lia|lia|].
  cbv zeta in Tb, Tm, Db, Dm.
  set (T := if negb (title =? "")%string && _ && _ then 15 else _) in *.
  set (D := if negb (description =? "")%string && _ && _ then 20 else _) in *.
  set (W := if (300 <=? wordCount) && _ then 25 else _).
  set (I := if hasImages then 15 else 0).
  set (K := if 3 <=? keywordsCount then 25 else _).
  assert (Wb : 0 <= W <= 25 /\ (W = 25 <-> 300 <= wordCount <= 3000)).
  { subst W. destruct (Z.leb_spec 300 wordCount), (Z.leb_spec wordCount 3000),
      (Z.leb_spec 100 wordCount); cbn [andb]; lia. }
  assert (Ib : 0 <= I <= 15 /\ (I = 15 <-> hasImages = true)).
  { subst I. destruct hasImages; split; try lia; split; try done; lia. }
  assert (Kb : 0 <= K <= 25 /\ (K = 25 <-> 3 <= keywordsCount)).
  { subst K. destruct (Z.leb_spec 3 keywordsCount),
      (Z.ltb_spec 0 keywordsCount); lia. }
  clearbody T D W I K.
  destruct Wb as [Wb Wm], Ib as [Ib Im], Kb as [Kb Km].
  split; [lia|]. split.
  - intros E.
    assert (T = 15 /\ D = 20 /\ W = 25 /\ I = 15 /\ K = 25) as (?&?&?&?&?) by lia.
    tauto.
  - intros (Ht & Hd & Hw & Hi & Hk).
    apply Tm in Ht. apply Dm in Hd. apply Wm in Hw. apply Im in Hi.
    apply Km in Hk. lia.
Qed.

Lemma length_str (l : list ascii) : Js.length (Js.str l) = Z.of_nat (List.length l).
Proof.
  unfold Js.length, Js.str. f_equal.
  induction l as [|c l IH]; simpl; [done|]. by rewrite IH.
Qed.

Lemma length_chars (s : string) : List.length (Js.chars s) = String.length s.
Proof. induction s as [|c s IH]; simpl; [done|]. by rewrite IH. Qed.

Lemma str_chars (s : string) : Js.str (Js.chars s) = s.
Proof. apply string_of_list_ascii_of_string. Qed.

Lemma length_append (a b : string) :
  Js.length (a +:+ b) = Js.length a + Js.length b.
Proof.
  unfold Js.length. rewrite <- Nat2Z.inj_add. f_equal.
  induction a as [|c a IH]; [done|].
  change (S (String.length (a +:+ b)) = S (String.length a) + String.length b)%nat.
  by rewrite IH.
Qed.

Lemma append_empty_r (s : string) : s +:+ "" = s.
Proof.
  induction s as [|c s IH]; [done|].
  change (String c (s +:+ "") = String c s). by rewrite IH.
Qed.

Lemma trim_length (l : list ascii) :
  (List.length (Js.trim l) <= List.length l)%nat.
Proof.
  unfold Js.trim.
  destruct (dropWhileEnd_prefix Js.isSpace (Js.dropWhile Js.isSpace l)) as [d E].
  destruct (dropWhile_suffix Js.isSpace l) as [d' E'].
  rewrite E' at 2. rewrite E at 2. rewrite !length_app. lia.
Qed.

(** X5. An excerpt never has more than 163 characters; without a
    paragraph block it is empty; and for a first paragraph of at most
    160 characters it is the trimmed text, with no ellipsis. *)
Theorem extractExcerpt_bounds (title : string) (blocks : list ContentBlock) :
  Js.length (extractExcerpt title blocks) <= 163
  /\ (List.find isParagraph blocks = None -> extractExcerpt title blocks = "")
  /\ (forall b,
        List.find isParagraph blocks = Some b ->
        Js.length (block_content b) <= 160 ->
        extractExcerpt title blocks
        = Js.str (Js.trim (Js.chars (block_content b)))).
Proof.
  unfold extractExcerpt. split; [|split].
  - rewrite length_append, length_str.
    set (text := orElse _ _).
    pose proof (trim_length (Js.substring0 160 (Js.chars text))) as Ht.
    unfold Js.substring0 in *.
    pose proof (firstn_le_length 160 (Js.chars text)) as Hf.
    destruct (160 <? Js.length text); simpl Js.length; change (Js.length "...") with 3;
      unfold Js.length; simpl; lia.
  - intros ->. reflexivity.
  - intros b -> Hlen. cbn [from_option]. rewrite orElse_empty.
    destruct (Z.ltb_spec 160 (Js.length (block_content b))); [lia|].
    unfold Js.substring0. rewrite firstn_all2.
    + apply append_empty_r.
    + rewrite length_chars. unfold Js.length in Hlen. lia.
Qed.

(** ** Word count *)

Lemma countWords_from (blocks : list ContentBlock) (n : Z) :
  fold_left
    (fun count b =>
       count + Z.of_nat (List.length (Js.splitSpaces (Js.chars (block_content b)))))
    blocks n
  = n + fold_left
      (fun count b =>
         count + Z.of_nat (List.length (Js.splitSpaces (Js.chars (block_content b)))))
      blocks 0.
Proof.
  revert n. induction blocks as [|b blocks IH]; intros n; simpl; [lia|].
  rewrite IH. rewrite (IH (0 + _)). lia.
Qed.

Lemma splitSpaces_nonempty (s : list ascii) :
  (1 <= List.length (Js.splitSpaces s))%nat.
Proof.
  induction s as [|c s IH]; simpl; [lia|].
  destruct (Js.isSpace c).
  - destruct s as [|c' s']; [simpl; lia|].
    destruct (Js.isSpace c') eqn:E; [exact IH|].
    cbn [List.length]. lia.
  - destruct (Js.splitSpaces s); cbn [List.length]; lia.
Qed.

(** X6. The word count of a content is the sum over its parts, only
    paragraph blocks count, and every paragraph block counts for at
    least one word, the empty one included. *)
Theorem countWords_paragraphs (blocks more : list ContentBlock) :
  countWords (blocks ++ more) = countWords blocks + countWords more
  /\ Z.of_nat (List.length (List.filter isParagraph blocks)) <= countWords blocks
  /\ (forall b, isParagraph b = false -> countWords (b :: blocks) = countWords blocks)
  /\ (forall b, isParagraph b = true -> block_content b = "" ->
                countWords (b :: blocks) = 1 + countWords blocks).
Proof.
  unfold countWords. split; [|split; [|split]].
  - rewrite List.filter_app, fold_left_app. by rewrite countWords_from.
  - induction blocks as [|b blocks IH]; simpl; [lia|].
    destruct (isParagraph b); [|exact IH]. simpl.
    rewrite countWords_from.
    pose proof (splitSpaces_nonempty (Js.chars (block_content b))). lia.
  - intros b Hb. simpl. by rewrite Hb.
  - intros b Hb Hc. simpl. rewrite Hb. simpl.
    rewrite countWords_from, Hc. simpl. lia.
Qed.

(** ** The record store: reads, frames and failures *)

Section RecordStoreMore.

Variable B : Browser.

Lemma find_by_id_none id (posts : list BlogPost) :
  id ∉ map post_id posts ->
  List.find (fun p => (post_id p =? id)%string) posts = None.
Proof.
  induction posts as [|p posts IH]; [done|].
  simpl. intros H. apply not_elem_of_cons in H as [H1 H2].
  destruct (String.eqb_spec (post_id p) id); [congruence|]. by apply IH.
Qed.


(** What a successful write stored is read back, when JSON reads back
    what it wrote. *)
Lemma getAllPosts_written ls posts :
  JSON_parse B (JSON_stringify B posts) = ParsedArray posts ->
  JSON_stringify B posts <> "" ->
  getAllPosts B (<[STORAGE_KEY := JSON_stringify B posts]> ls) = posts.
Proof.
  intros Hp Hne. unfold getAllPosts. rewrite lookup_insert_eq.
  destruct (String.eqb_spec (JSON_stringify B posts) ""); [done|].
  by rewrite Hp.
Qed.


(** X8. A write that fails, for whatever reason, leaves localStorage as
    it was: a thrown [createPost], an [updatePost] or [duplicatePost]
    that returns [null], a [deletePost] that returns [false], and an
    import that reports [success: false]. *)
Theorem failed_write_leaves_storage :
  (forall env input ls e ls',
      createPost B env input ls = (Thrown e, ls') -> ls' = ls)
  /\ (forall env id updates ls ls',
      updatePost B env id updates ls = (None, ls') -> ls' = ls)
  /\ (forall id ls ls', deletePost B id ls = (false, ls') -> ls' = ls)
  /\ (forall env id ls ls',
      duplicatePost B env id ls = (None, ls') -> ls' = ls)
  /\ (forall jsonString ls r ls',
      importPostsFromJson B jsonString ls = (r, ls') ->
      success r = false -> ls' = ls).
Proof.
  repeat split.
  - intros env input ls e ls'. unfold createPost, setItem.
    destruct (MAX_STORAGE_SIZE <? _); [by intros [= _ <-]|].
    destruct (quotaAllows B _ _ _); [done|by intros [= _ <-]].
  - intros env id updates ls ls'. unfold updatePost, setItem.
    destruct (_ =? -1); [by intros [= <-]|].
    destruct (getAllPosts B ls !! _); [|by intros [= <-]].
    destruct (MAX_STORAGE_SIZE <? _); [by intros [= <-]|].
    destruct (quotaAllows B _ _ _); [done|by intros [= <-]].
  - intros id ls ls'. unfold deletePost, setItem.
    destruct (_ =? _)%nat; [by intros [= <-]|].
    destruct (quotaAllows B _ _ _); [done|by intros [= <-]].
  - intros env id ls ls'. unfold duplicatePost, setItem.
    destruct (getPostById B id ls); [|by intros [= <-]].
    destruct (MAX_STORAGE_SIZE <? _); [by intros [= <-]|].
    destruct (quotaAllows B _ _ _); [done|by intros [= <-]].
  - intros jsonString ls r ls'. unfold importPostsFromJson, setItem.
    destruct (JSON_parse B jsonString); [by intros [= _ <-]..|].
    destruct (mergeImported _ _) as [mergedPosts importedCount].
    destruct (MAX_STORAGE_SIZE <? _); [by intros [= _ <-]|].
    destruct (quotaAllows B _ _ _); [|by intros [= _ <-]].
    by intros [= <- _] Hs.
Qed.

(** X9. No operation of the store touches another key of localStorage
    than [blog_posts] (the drafts that the autosave hook keeps under
    [blog_draft_...] are never changed by it). *)
Theorem store_touches_only_its_key (key : string) :
  key <> STORAGE_KEY ->
  (forall env input ls, (createPost B env input ls).2 !! key = ls !! key)
  /\ (forall env id updates ls,
        (updatePost B env id updates ls).2 !! key = ls !! key)
  /\ (forall id ls, (deletePost B id ls).2 !! key = ls !! key)
  /\ (forall env id ls, (duplicatePost B env id ls).2 !! key = ls !! key)
  /\ (forall jsonString ls,
        (importPostsFromJson B jsonString ls).2 !! key = ls !! key)
  /\ (forall ls, clearAllPosts ls !! key = ls !! key).
Proof.
  intros Hk.
  assert (Hset : forall value ls,
             match setItem B STORAGE_KEY value ls with
             | Some ls' => ls' !! key = ls !! key
             | None => True
             end).
  { intros value ls. unfold setItem.
    destruct (quotaAllows B _ _ _); [|done].
    by rewrite lookup_insert_ne. }
  repeat split.
  - intros env input ls. unfold createPost.
    destruct (MAX_STORAGE_SIZE <? _); [done|].
    match goal with |- context [setItem B ?k ?v ?l] =>
      specialize (Hset v l); destruct (setItem B k v l) end; done.
  - intros env id updates ls. unfold updatePost.
    destruct (_ =? -1); [done|].
    destruct (getAllPosts B ls !! _); [|done].
    destruct (MAX_STORAGE_SIZE <? _); [done|].
    match goal with |- context [setItem B ?k ?v ?l] =>
      specialize (Hset v l); destruct (setItem B k v l) end; done.
  - intros id ls. unfold deletePost.
    destruct (_ =? _)%nat; [done|].
    match goal with |- context [setItem B ?k ?v ?l] =>
      specialize (Hset v l); destruct (setItem B k v l) end; done.
  - intros env id ls. unfold duplicatePost.
    destruct (getPostById B id ls); [|done].
    destruct (MAX_STORAGE_SIZE <? _); [done|].
    match goal with |- context [setItem B ?k ?v ?l] =>
      specialize (Hset v l); destruct (setItem B k v l) end; done.
  - intros jsonString ls. unfold importPostsFromJson.
    destruct (JSON_parse B jsonString); [done..|].
    destruct (mergeImported _ _) as [mergedPosts importedCount].
    destruct (MAX_STORAGE_SIZE <? _); [done|].
    match goal with |- context [setItem B ?k ?v ?l] =>
      specialize (Hset v l); destruct (setItem B k v l) end; done.
  - intros ls. unfold clearAllPosts. by rewrite lookup_delete_ne.
Qed.

(** X10. For an identifier that no stored record has, [getPostById],
    [updatePost] and [duplicatePost] return [null] and [deletePost]
    returns [false], and none of them writes. *)
Theorem unknown_id_is_absent env id updates ls :
  id ∉ map post_id (getAllPosts B ls) ->
  getPostById B id ls = None
  /\ updatePost B env id updates ls = (None, ls)
  /\ duplicatePost B env id ls = (None, ls)
  /\ deletePost B id ls = (false, ls).
Proof.
  intros H.
  assert (Hg : getPostById B id ls = None) by (by apply find_by_id_none).
  split; [done|]. split; [|split].
  - unfold updatePost. apply findIndex_none in H. by rewrite H.
  - unfold duplicatePost. by rewrite Hg.
  - by apply deletePost_unknown_id.
Qed.

End RecordStoreMore.

Lemma unknown_id_is_absent_witness :
  let ls := Double.holding [Double.post1; Double.post2] in
  getPostById Double.browser "bp_0_missing" ls = None
  /\ updatePost Double.browser Double.env "bp_0_missing" noUpdates ls = (None, ls)
  /\ duplicatePost Double.browser Double.env "bp_0_missing" ls = (None, ls)
  /\ deletePost Double.browser "bp_0_missing" ls = (false, ls).
Proof.
  intros ls.
  apply (unknown_id_is_absent Double.browser Double.env "bp_0_missing"
           noUpdates ls).
  vm_compute. intros H.
  repeat (apply elem_of_cons in H as [H|H]; [discriminate|]).
  by apply elem_of_nil in H.
Defined.


Lemma store_touches_only_its_key_witness :
  let ls : gmap string string :=
    <["blog_draft_new" := "{}"]> (Double.holding [Double.post1]) in
  (createPost Double.browser Double_env Double_input ls).2 !! "blog_draft_new"
  = Some "{}"
  /\ (deletePost Double.browser (post_id Double.post1) ls).2 !! "blog_draft_new"
     = Some "{}"
  /\ clearAllPosts ls !! "blog_draft_new" = Some "{}".
Proof.
  intros ls.
  destruct (store_touches_only_its_key Double.browser "blog_draft_new")
    as (Hc & _ & Hd & _ & _ & Hclear); [discriminate|].
  rewrite Hc, Hd, Hclear. unfold ls. by rewrite lookup_insert_eq.
Defined.

(** ** The record store: update, delete, duplicate *)


Lemma find_filter_other id id' (posts : list BlogPost) :
  id' <> id ->
  List.find (fun p => (post_id p =? id')%string)
    (List.filter (fun p => negb (post_id p =? id)%string) posts)
  = List.find (fun p => (post_id p =? id')%string) posts.
Proof.
  intros Hne. induction posts as [|p posts IH]; [done|].
  simpl. destruct (String.eqb_spec (post_id p) id) as [E|E]; simpl.
  - destruct (String.eqb_spec (post_id p) id'); [congruence|done].
  - by destruct (String.eqb_spec (post_id p) id').
Qed.

Lemma filter_removes_id id (posts : list BlogPost) :
  id ∉ map post_id (List.filter (fun p => negb (post_id p =? id)%string) posts).
Proof.
  induction posts as [|p posts IH]; simpl; [apply not_elem_of_nil|].
  destruct (String.eqb_spec (post_id p) id) as [E|E]; simpl; [done|].
  apply not_elem_of_cons. split; [congruence|done].
Qed.

Section RecordStoreWrites.

Variable B : Browser.


(** X12. After a [deletePost] that returned [true], no record with the
    identifier is left, the other records are found as before, and a
    second [deletePost] of the identifier returns [false] and writes
    nothing.  (JSON is taken to read back what it wrote.) *)
Theorem deletePost_then_absent id ls ls' :
  deletePost B id ls = (true, ls') ->
  let remaining :=
    List.filter (fun p => negb (post_id p =? id)%string) (getAllPosts B ls) in
  JSON_parse B (JSON_stringify B remaining) = ParsedArray remaining ->
  JSON_stringify B remaining <> "" ->
  getAllPosts B ls' = remaining
  /\ getPostById B id ls' = None
  /\ (forall id', id' <> id -> getPostById B id' ls' = getPostById B id' ls)
  /\ deletePost B id ls' = (false, ls').
Proof.
  intros H remaining Hp Hne.
  apply deletePost_true in H as [_ ->].
  fold remaining.
  assert (Hg : getAllPosts B (<[STORAGE_KEY := JSON_stringify B remaining]> ls)
               = remaining) by (by apply getAllPosts_written).
  assert (Hn : id ∉ map post_id remaining) by apply filter_removes_id.
  split; [done|]. split; [|split].
  - unfold getPostById. rewrite Hg. by apply find_by_id_none.
  - intros id' Hid'. unfold getPostById. rewrite Hg.
    by apply find_filter_other.
  - apply deletePost_unknown_id. by rewrite Hg.
Qed.

(** X13. A [duplicatePost] that returns a record has found the original
    and returns a copy of it with a new identifier, the slug extended by
    [-copy-<time>], status [draft], no publication date and fresh
    timestamps, and with the title, content, tags, metadata, author and
    image of the original; it writes the former posts followed by the
    copy, within the cap. *)
Theorem duplicatePost_returned env id ls copy ls' :
  duplicatePost B env id ls = (Some copy, ls') ->
  exists original,
    getPostById B id ls = Some original
    /\ post_id copy = generateId env
    /\ slug copy = slug original +:+ "-copy-" +:+ pretty (slugMillis env)
    /\ status copy = draft /\ publishedAt copy = None
    /\ createdAt copy = isoNow env /\ updatedAt copy = isoNow env
    /\ title copy = title original /\ content copy = content original
    /\ tags copy = tags original /\ metadata copy = metadata original
    /\ author copy = author original
    /\ featuredImage copy = featuredImage original
    /\ ls' = <[STORAGE_KEY := JSON_stringify B (getAllPosts B ls ++ [copy])]> ls
    /\ getObjectSize B (getAllPosts B ls ++ [copy]) <= MAX_STORAGE_SIZE.
Proof.
  unfold duplicatePost, setItem. intros H.
  destruct (getPostById B id ls) as [original|]; [|done].
  destruct (Z.ltb_spec MAX_STORAGE_SIZE
              (getObjectSize B (getAllPosts B ls ++ [duplicateOf env original])));
    [done|].
  destruct (quotaAllows B _ _ _); [|done].
  injection H as <- <-. exists original. repeat split; done.
Qed.

End RecordStoreWrites.


Lemma deletePost_then_absent_witness :
  let ls := Double.holding [Double.post1; Double.post2] in
  let ls' := <[STORAGE_KEY := Double.write "" [Double.post2]]> ls in
  getAllPosts Double.browser ls'
  = List.filter (fun p => negb (post_id p =? post_id Double.post1)%string)
      (getAllPosts Double.browser ls)
  /\ getPostById Double.browser (post_id Double.post1) ls' = None
  /\ (forall id', id' <> post_id Double.post1 ->
        getPostById Double.browser id' ls' = getPostById Double.browser id' ls)
  /\ deletePost Double.browser (post_id Double.post1) ls' = (false, ls').
Proof.
  intros ls ls'.
  apply (deletePost_then_absent Double.browser (post_id Double.post1) ls ls').
  - vm_compute. reflexivity.
  - vm_compute. reflexivity.
  - vm_compute. discriminate.
Defined.

Lemma duplicatePost_returned_witness :
  let ls := Double.holding [Double.post1] in
  let copy := duplicateOf Double.env Double.post1 in
  let ls' := <[STORAGE_KEY := Double.write "" [Double.post1; copy]]> ls in
  exists original,
    getPostById Double.browser (post_id Double.post1) ls = Some original
    /\ post_id copy = generateId Double.env
    /\ slug copy
       = slug original +:+ "-copy-" +:+ pretty (slugMillis Double.env)
    /\ status copy = draft /\ publishedAt copy = None
    /\ createdAt copy = isoNow Double.env /\ updatedAt copy = isoNow Double.env
    /\ title copy = title original /\ content copy = content original
    /\ tags copy = tags original /\ metadata copy = metadata original
    /\ author copy = author original
    /\ featuredImage copy = featuredImage original
    /\ ls' = <[STORAGE_KEY :=
                JSON_stringify Double.browser
                  (getAllPosts Double.browser ls ++ [copy])]> ls
    /\ getObjectSize Double.browser (getAllPosts Double.browser ls ++ [copy])
       <= MAX_STORAGE_SIZE.
Proof.
  intros ls copy ls'.
  apply (duplicatePost_returned Double.browser Double.env
           (post_id Double.post1) ls copy ls').
  vm_compute. reflexivity.
Defined.

(** ** Import *)

Lemma mergeStep_known (merged : list BlogPost) n p :
  post_id p ∈ map post_id merged -> mergeStep (merged, n) p = (merged, n).
Proof.
  intros H. unfold mergeStep.
  destruct (Z.eqb_spec (findIndex (post_id p) merged) (-1)) as [E|E]; [|done].
  apply findIndex_none in E. done.
Qed.

Lemma mergeStep_new (merged : list BlogPost) n p :
  post_id p ∉ map post_id merged ->
  mergeStep (merged, n) p = (merged ++ [p], n + 1).
Proof.
  intros H. unfold mergeStep. apply findIndex_none in H. by rewrite H.
Qed.

(** The merge loop: the existing posts stay in front, in order; the
    posts added are imported posts, in their order; the count is their
    number; every imported identifier is in the result; and identifiers
    that were distinct stay distinct. *)
Lemma merge_loop (imported merged : list BlogPost) (n : Z) :
  exists added,
    fold_left mergeStep imported (merged, n)
    = (merged ++ added, n + Z.of_nat (List.length added))
    /\ sublist added imported
    /\ (forall p, p ∈ imported -> post_id p ∈ map post_id (merged ++ added))
    /\ (NoDup (map post_id merged) -> NoDup (map post_id (merged ++ added))).
Proof.
  revert merged n. induction imported as [|p imported IH]; intros merged n.
  - exists []. rewrite app_nil_r. simpl.
    split; [f_equal; lia|]. split; [done|]. split; [|done].
    intros p H. by apply elem_of_nil in H.
  - cbn [fold_left].
    destruct (decide (post_id p ∈ map post_id merged)) as [Hin|Hout].
    + rewrite (mergeStep_known _ _ _ Hin).
      destruct (IH merged n) as (added & Hf & Hs & Hall & Hnd).
      exists added. split; [done|]. split; [by apply sublist_cons|].
      split; [|done].
      intros q Hq. apply elem_of_cons in Hq as [->|Hq]; [|by apply Hall].
      rewrite map_app. apply elem_of_app. by left.
    + rewrite (mergeStep_new _ _ _ Hout).
      destruct (IH (merged ++ [p]) (n + 1)) as (added & Hf & Hs & Hall & Hnd).
      exists (p :: added).
      rewrite <- app_assoc in Hf, Hall, Hnd. simpl in Hf, Hall, Hnd.
      split; [rewrite Hf; f_equal; simpl List.length; lia|].
      split; [by apply sublist_skip|]. split.
      * intros q Hq. apply elem_of_cons in Hq as [->|Hq]; [|by apply Hall].
        rewrite map_app. apply elem_of_app. right. simpl. apply list_elem_of_here.
      * intros Hm. apply Hnd. rewrite map_app. apply NoDup_app.
        split; [done|]. split.
        -- intros x Hx Hx'. simpl in Hx'.
           apply list_elem_of_singleton in Hx' as ->. done.
        -- simpl. apply NoDup_singleton.
Qed.

Section ImportFacts.

Variable B : Browser.

(** X14. A successful import never overwrites: it writes the existing
    posts, in order and unchanged, followed by those imported posts
    whose identifier was not yet present; [count] is the number of posts
    added; every imported identifier is in the written collection; the
    collection fits the cap; and if the existing identifiers were
    pairwise distinct, so are the written ones. *)
Theorem import_appends_unknown_ids jsonString ls r ls' :
  importPostsFromJson B jsonString ls = (r, ls') ->
  success r = true ->
  exists imported added,
    JSON_parse B jsonString = ParsedArray imported
    /\ ls' = <[STORAGE_KEY :=
                JSON_stringify B (getAllPosts B ls ++ added)]> ls
    /\ count r = Z.of_nat (List.length added)
    /\ sublist added imported
    /\ (forall p, p ∈ imported ->
                  post_id p ∈ map post_id (getAllPosts B ls ++ added))
    /\ (NoDup (map post_id (getAllPosts B ls)) ->
        NoDup (map post_id (getAllPosts B ls ++ added)))
    /\ getObjectSize B (getAllPosts B ls ++ added) <= MAX_STORAGE_SIZE.
Proof.
  unfold importPostsFromJson, mergeImported, setItem. intros H Hs.
  destruct (JSON_parse B jsonString) as [| |imported];
    [injection H as <- _; done..|].
  destruct (merge_loop imported (getAllPosts B ls) 0)
    as (added & Hf & Hsub & Hall & Hnd).
  rewrite Hf in H.
  destruct (Z.ltb_spec MAX_STORAGE_SIZE
              (getObjectSize B (getAllPosts B ls ++ added)));
    [injection H as <- _; done|].
  destruct (quotaAllows B _ _ _); [|injection H as <- _; done].
  injection H as <- <-. exists imported, added. simpl.
  repeat split; try done; lia.
Qed.


(** X16. When the text stored under [blog_posts] is not a JSON array
    (it does not parse, or parses to something else), every read
    answers as for an empty store, and a [createPost] that succeeds
    replaces the stored text by the collection that holds the new post
    only. *)
Theorem corrupt_store_reads_empty ls data :
  ls !! STORAGE_KEY = Some data ->
  (forall posts, JSON_parse B data <> ParsedArray posts) ->
  getAllPosts B ls = []
  /\ (forall id, getPostById B id ls = None)
  /\ (forall st, getPostsByStatus B st ls = [])
  /\ exportPostsAsJson B ls = JSON_stringify_indent B []
  /\ (forall env input post ls',
        createPost B env input ls = (Returned post, ls') ->
        ls' = <[STORAGE_KEY := JSON_stringify B [post]]> ls).
Proof.
  intros Hd Hbad.
  assert (Hg : getAllPosts B ls = []).
  { unfold getAllPosts. rewrite Hd. destruct (data =? "")%string; [done|].
    destruct (JSON_parse B data) as [| |posts] eqn:E; [done..|].
    by destruct (Hbad posts). }
  split; [done|]. split; [|split; [|split]].
  - intros id. unfold getPostById. by rewrite Hg.
  - intros st. unfold getPostsByStatus. by rewrite Hg.
  - unfold exportPostsAsJson. by rewrite Hg.
  - intros env input post ls' H.
    apply createPost_returned in H as [-> ->]. by rewrite Hg.
Qed.

(** X17. Whatever [createPost], [updatePost], [duplicatePost] or
    [importPostsFromJson] writes fits the cap: when one of them
    succeeds, the text under [blog_posts] is the serialization of a
    collection of at most 5 MiB. *)
Theorem successful_write_within_cap :
  (forall env input ls post ls',
      createPost B env input ls = (Returned post, ls') ->
      exists posts,
        ls' !! STORAGE_KEY = Some (JSON_stringify B posts)
        /\ getObjectSize B posts <= MAX_STORAGE_SIZE)
  /\ (forall env id updates ls post ls',
      updatePost B env id updates ls = (Some post, ls') ->
      exists posts,
        ls' !! STORAGE_KEY = Some (JSON_stringify B posts)
        /\ getObjectSize B posts <= MAX_STORAGE_SIZE)
  /\ (forall env id ls post ls',
      duplicatePost B env id ls = (Some post, ls') ->
      exists posts,
        ls' !! STORAGE_KEY = Some (JSON_stringify B posts)
        /\ getObjectSize B posts <= MAX_STORAGE_SIZE)
  /\ (forall jsonString ls r ls',
      importPostsFromJson B jsonString ls = (r, ls') ->
      success r = true ->
      exists posts,
        ls' !! STORAGE_KEY = Some (JSON_stringify B posts)
        /\ getObjectSize B posts <= MAX_STORAGE_SIZE).
Proof.
  repeat split.
  - intros env input ls post ls'. unfold createPost, setItem.
    destruct (Z.ltb_spec MAX_STORAGE_SIZE
                (getObjectSize B (getAllPosts B ls ++ [newPostOf env input])));
      [done|].
    destruct (quotaAllows B _ _ _); [|done].
    intros [= _ <-]. eexists. by rewrite lookup_insert_eq.
  - intros env id updates ls post ls' H.
    apply updatePost_returned in H as (i & p & _ & _ & _ & Hs & ->).
    eexists. by rewrite lookup_insert_eq.
  - intros env id ls post ls' H.
    apply duplicatePost_returned in H as (o & H).
    destruct H as (_&_&_&_&_&_&_&_&_&_&_&_&_& -> & Hs).
    eexists. by rewrite lookup_insert_eq.
  - intros jsonString ls r ls' H Hs.
    destruct (import_appends_unknown_ids _ _ _ _ H Hs)
      as (imported & added & _ & -> & _ & _ & _ & _ & Hsize).
    eexists. by rewrite lookup_insert_eq.
Qed.

End ImportFacts.

Lemma import_appends_unknown_ids_witness :
  let ls := Double.holding [Double.post1] in
  let text := Double.write " " [Double.post1; Double.post2] in
  let r := {| success := true; count := 1; error := None |} in
  let ls' :=
    <[STORAGE_KEY := Double.write "" [Double.post1; Double.post2]]> ls in
  exists imported added,
    JSON_parse Double.browser text = ParsedArray imported
    /\ ls' = <[STORAGE_KEY :=
                JSON_stringify Double.browser
                  (getAllPosts Double.browser ls ++ added)]> ls
    /\ count r = Z.of_nat (List.length added)
    /\ sublist added imported
    /\ (forall p, p ∈ imported ->
                  post_id p
                  ∈ map post_id (getAllPosts Double.browser ls ++ added))
    /\ (NoDup (map post_id (getAllPosts Double.browser ls)) ->
        NoDup (map post_id (getAllPosts Double.browser ls ++ added)))
    /\ getObjectSize Double.browser (getAllPosts Double.browser ls ++ added)
       <= MAX_STORAGE_SIZE.
Proof.
  intros ls text r ls'.
  apply (import_appends_unknown_ids Double.browser text ls r ls').
  - vm_compute. reflexivity.
  - reflexivity.
Defined.


Lemma corrupt_store_reads_empty_witness :
  let ls : gmap string string := {[ STORAGE_KEY := "{not json" ]} in
  getAllPosts Double.browser ls = []
  /\ (forall id, getPostById Double.browser id ls = None)
  /\ (forall st, getPostsByStatus Double.browser st ls = [])
  /\ exportPostsAsJson Double.browser ls = "[ ]"
  /\ (forall env input post ls',
        createPost Double.browser env input ls = (Returned post, ls') ->
        ls' = <[STORAGE_KEY := Double.write "" [post]]> ls).
Proof.
  intros ls.
  apply (corrupt_store_reads_empty Double.browser ls "{not json").
  - reflexivity.
  - intros posts. vm_compute. discriminate.
Defined.

(** ** Image handler *)

Module ImageHandlerFacts.
Import ImageHandler.

(** X18. A file is accepted exactly when it has at most 10 MiB and one
    of the four allowed types; a file that is too large is refused for
    its size whatever its type, and a refusal always carries a
    message. *)
Theorem validateImageFile_accepts (file : File) :
  (valid (validateImageFile file) = true <->
   file_size file <= 10 * 1024 * 1024
   /\ file_type file ∈ ["image/jpeg"; "image/png"; "image/webp"; "image/gif"])
  /\ (10 * 1024 * 1024 < file_size file ->
      validation_error (validateImageFile file)
      = Some "File size exceeds 10.0MB limit")
  /\ (valid (validateImageFile file) = false <->
      is_Some (validation_error (validateImageFile file))).
Proof.
  unfold validateImageFile, MAX_FILE_SIZE.
  assert (Hin : includes ALLOWED_FORMATS (file_type file) = true <->
                file_type file ∈ ALLOWED_FORMATS).
  { unfold includes. rewrite existsb_exists. split.
    - intros (f & Hf & E). apply String.eqb_eq in E. subst.
      by apply list_elem_of_In.
    - intros H. exists (file_type file). split; [by apply list_elem_of_In|].
      apply String.eqb_refl. }
  unfold ALLOWED_FORMATS in Hin.
  destruct (Z.ltb_spec (10 * 1024 * 1024) (file_size file)) as [Hbig|Hok].
  - simpl. split; [split; [done|lia]|]. split; [done|]. split; [by eexists|done].
  - destruct (includes _ (file_type file)) eqn:E; simpl.
    + split; [split; [intros _; split; [lia|by apply Hin]|done]|].
      split; [lia|]. split; [done|]. by intros [? ?].
    + split.
      * split; [done|]. intros [_ H]. apply Hin in H. done.
      * split; [lia|]. split; [by eexists|done].
Qed.

Lemma gcd_rem (a b : Z) : b <> 0 -> Z.gcd b (Z.rem a b) = Z.gcd a b.
Proof.
  intros Hb. rewrite (Z.rem_eq a b Hb), Z.gcd_comm.
  replace (a - b * (a ÷ b)) with (a + (- (a ÷ b)) * b) by lia.
  rewrite (Z.gcd_comm _ b), Z.gcd_add_mult_diag_r. apply Z.gcd_comm.
Qed.

(** With enough calls for the second argument, the loop ends on the
    greatest common divisor, up to sign. *)
Lemma gcdLoop_abs (calls : nat) (a b : Z) :
  Z.abs b < Z.of_nat calls -> Z.abs (gcdLoop calls a b) = Z.gcd a b.
Proof.
  revert a b. induction calls as [|calls IH]; intros a b Hb; [lia|].
  simpl. destruct (Z.eqb_spec b 0) as [->|Hne].
  - by rewrite Z.gcd_0_r.
  - rewrite IH.
    + by apply gcd_rem.
    + pose proof (Z.rem_bound_abs a b Hne). lia.
Qed.

Lemma gcdLoop_nonneg (calls : nat) (a b : Z) :
  0 <= a -> 0 <= b -> 0 <= gcdLoop calls a b.
Proof.
  revert a b. induction calls as [|calls IH]; intros a b Ha Hb; [done|].
  simpl. destruct (Z.eqb_spec b 0) as [->|Hne]; [done|].
  apply IH; [done|]. apply Z.rem_nonneg; lia.
Qed.

(** The recursion of [gcd] always reaches [b === 0]: its result is the
    greatest common divisor, up to sign, for all integers. *)
Lemma gcd_abs (a b : Z) : Z.abs (gcd a b) = Z.gcd a b.
Proof. unfold gcd. apply gcdLoop_abs. lia. Qed.

Lemma gcd_positive (a b : Z) : 0 < a -> 0 < b -> gcd a b = Z.gcd a b.
Proof.
  intros Ha Hb. rewrite <- gcd_abs. symmetry. apply Z.abs_eq.
  unfold gcd. apply gcdLoop_nonneg; lia.
Qed.

(** X19. For a positive width and height, the aspect ratio is written
    with the two sides divided by their greatest common divisor: the two
    numbers are in lowest terms and in the proportion of the sides.
    When a side is missing or 0 the result is [null]. *)
Theorem getImageAspectRatio_lowest_terms (width height : Z) :
  0 < width -> 0 < height ->
  exists w h,
    getImageAspectRatio (Some width) (Some height)
    = Some (pretty w +:+ "/" +:+ pretty h)
    /\ 0 < w /\ 0 < h
    /\ Z.gcd w h = 1
    /\ w * height = h * width
    /\ width = w * Z.gcd width height /\ height = h * Z.gcd width height.
Proof.
  intros Hw Hh. unfold getImageAspectRatio.
  destruct (Z.eqb_spec width 0); [lia|]. destruct (Z.eqb_spec height 0); [lia|].
  cbn [orb]. rewrite (gcd_positive _ _ Hw Hh).
  set (g := Z.gcd width height).
  assert (Hg : 0 < g).
  { pose proof (Z.gcd_nonneg width height).
    destruct (Z.eq_dec g 0) as [E|E]; [|fold g in H; lia].
    apply Z.gcd_eq_0_l in E. lia. }
  destruct (Z.gcd_divide_l width height) as [w Ew].
  destruct (Z.gcd_divide_r width height) as [h Eh].
  fold g in Ew, Eh.
  exists w, h.
  assert (Qw : width ÷ g = w) by (rewrite Ew; apply Z.quot_mul; lia).
  assert (Qh : height ÷ g = h) by (rewrite Eh; apply Z.quot_mul; lia).
  rewrite Qw, Qh. split; [done|].
  split; [nia|]. split; [nia|]. split; [|split; [nia|done]].
  assert (Hgcd : Z.gcd (w * g) (h * g) = g) by (by rewrite <- Ew, <- Eh).
  rewrite Z.gcd_mul_mono_r_nonneg in Hgcd by lia.
  nia.
Qed.

Lemma getImageAspectRatio_lowest_terms_witness :
  exists w h,
    getImageAspectRatio (Some 1920) (Some 1080)
    = Some (pretty w +:+ "/" +:+ pretty h)
    /\ 0 < w /\ 0 < h
    /\ Z.gcd w h = 1
    /\ w * 1080 = h * 1920
    /\ 1920 = w * Z.gcd 1920 1080 /\ 1080 = h * Z.gcd 1920 1080.
Proof. apply (getImageAspectRatio_lowest_terms 1920 1080); lia. Defined.

(** [getImageAspectRatio] answers [null] exactly when a side is
    missing or 0. *)
Lemma getImageAspectRatio_null (width height : option Z) :
  getImageAspectRatio width height = None <->
  width = None \/ width = Some 0 \/ height = None \/ height = Some 0.
Proof.
  unfold getImageAspectRatio.
  destruct width as [w|], height as [h|]; try (split; [auto|done]).
  destruct (Z.eqb_spec w 0) as [->|Hw]; [split; auto|].
  destruct (Z.eqb_spec h 0) as [->|Hh]; [split; auto|].
  simpl. split; [done|]. intros [H|[H|[H|H]]]; congruence.
Qed.

Lemma roundDiv_bounds (p q : Z) :
  0 < q -> 2 * q * roundDiv p q <= 2 * p + q < 2 * q * (roundDiv p q + 1).
Proof.
  intros Hq. unfold roundDiv.
  pose proof (Z.mul_div_le (2 * p + q) (2 * q) ltac:(lia)).
  pose proof (Z.mul_succ_div_gt (2 * p + q) (2 * q) ltac:(lia)).
  lia.
Qed.

(** X20. The size that [compressImage] draws at never enlarges the
    image: both sides are at most the natural ones; the longer side is
    cut down to its limit ([maxWidth] for an image wider than high,
    [maxHeight] otherwise); the other side keeps the proportion up to
    rounding; and an image whose longer side is within its limit keeps
    its size. *)
Theorem scaledSize_never_enlarges (width height maxWidth maxHeight : Z) :
  0 < width -> 0 < height -> 0 <= maxWidth -> 0 <= maxHeight ->
  let '(w, h) := scaledSize width height maxWidth maxHeight in
  0 <= w <= width /\ 0 <= h <= height
  /\ (height < width -> w <= maxWidth)
  /\ (width <= height -> h <= maxHeight)
  /\ Z.abs (2 * (w * height - h * width)) <= Z.max width height
  /\ ((height < width -> width <= maxWidth) ->
      (width <= height -> height <= maxHeight) ->
      (w, h) = (width, height)).
Proof.
  intros Hw Hh Hmw Hmh. unfold scaledSize.
  destruct (Z.ltb_spec height width) as [Hl|Hp].
  - destruct (Z.ltb_spec maxWidth width) as [Hbig|Hfit].
    + pose proof (roundDiv_bounds (height * maxWidth) width Hw) as Hr.
      set (h := roundDiv (height * maxWidth) width) in *.
      assert (0 <= h) by nia. assert (h <= height) by nia.
      repeat split; try lia; try nia.
    + repeat split; lia.
  - destruct (Z.ltb_spec maxHeight height) as [Hbig|Hfit].
    + pose proof (roundDiv_bounds (width * maxHeight) height Hh) as Hr.
      set (w := roundDiv (width * maxHeight) height) in *.
      assert (0 <= w) by nia. assert (w <= width) by nia.
      repeat split; try lia; try nia.
    + repeat split; lia.
Qed.

Lemma scaledSize_never_enlarges_witness :
  let '(w, h) := scaledSize 4000 3000 1920 1080 in
  0 <= w <= 4000 /\ 0 <= h <= 3000
  /\ (3000 < 4000 -> w <= 1920)
  /\ (4000 <= 3000 -> h <= 1080)
  /\ Z.abs (2 * (w * 3000 - h * 4000)) <= Z.max 4000 3000
  /\ ((3000 < 4000 -> 4000 <= 1920) ->
      (4000 <= 3000 -> 3000 <= 1080) ->
      (w, h) = (4000, 3000)).
Proof. apply (scaledSize_never_enlarges 4000 3000 1920 1080); lia. Defined.

End ImageHandlerFacts.

(** ** The autosave controller: offline, backups, unload *)

Module AutoSaveMore.
Import AutoSave.
Import AutoSaveFacts.
Import AutoSaveTrace.


(** The settling of a save neither calls [onSave] nor writes a backup,
    and it does not change the online flag. *)
Lemma settle_effects o k r h :
  saveCalls (settle o k r h) = saveCalls h
  /\ backups (settle o k r h) = backups h
  /\ isOnlineRef (settle o k r h) = isOnlineRef h.
Proof.
  unfold settle. destruct (awaiting h !! k) as [s|]; [|done].
  unfold resume. destruct r as [|reason]; [done|].
  simpl. by destruct (attemptNumber s <? maxRetries o).
Qed.

Lemma executeAutoSave_offline d n h :
  isOnlineRef h = false ->
  saveCalls (executeAutoSave d n h) = saveCalls h
  /\ isOnlineRef (executeAutoSave d n h) = false.
Proof.
  intros H. unfold executeAutoSave.
  destruct (isSavingRef h); [done|]. by rewrite H.
Qed.

Lemma runCallback_offline cb h :
  isOnlineRef h = false ->
  saveCalls (runCallback cb h) = saveCalls h
  /\ isOnlineRef (runCallback cb h) = false.
Proof.
  intros H. unfold runCallback.
  destruct cb, (pendingDataRef h); auto using executeAutoSave_offline.
Qed.

Lemma fireDue_offline fuel limit h :
  isOnlineRef h = false ->
  saveCalls (fireDue fuel limit h) = saveCalls h
  /\ isOnlineRef (fireDue fuel limit h) = false.
Proof.
  revert h. induction fuel as [|fuel IH]; intros h H; simpl; [done|].
  destruct (nextDue limit (timers h)) as [t|]; [|done].
  set (h1 := setClock _ (clearTimeout (timerId t) h)).
  destruct (runCallback_offline (callback t) h1 H) as [Hc Ho].
  destruct (IH _ Ho) as [Hc' Ho']. split; [|done].
  by rewrite Hc', Hc.
Qed.

Lemma step_offline o h e :
  isOnlineRef h = false -> e <> Online ->
  saveCalls (step o h e) = saveCalls h /\ isOnlineRef (step o h e) = false.
Proof.
  intros H He. destruct e as [d|dt|k r| | | |]; simpl.
  - unfold autoSave. simpl. by destruct (debounceTimerRef h).
  - unfold elapse. simpl. by apply fireDue_offline.
  - destruct (settle_effects o k r h) as (Hc & _ & Ho). by rewrite Ho.
  - done.
  - done.
  - unfold handleBeforeUnload. destruct (pendingDataRef h); [|done].
    destruct (isSavingRef h); [|done]. by destruct (debounceTimerRef h).
  - done.
Qed.

(** X21. While the hook is offline, [onSave] is never called: whatever
    happens (calls of [autoSave], time passing and timers firing, saves
    settling, unload) short of the browser coming back online, the list
    of [onSave] calls stays as it was. *)
Theorem offline_never_calls_onSave o events h :
  isOnlineRef h = false -> Online ∉ events ->
  saveCalls (run o events h) = saveCalls h
  /\ isOnlineRef (run o events h) = false.
Proof.
  revert h. induction events as [|e events IH]; intros h H Hn; [done|].
  apply not_elem_of_cons in Hn as [He Hn].
  destruct (step_offline o h e H) as [Hc Ho]; [congruence|].
  destruct (IH _ Ho Hn) as [Hc' Ho']. simpl. split; [|done].
  by rewrite Hc', Hc.
Qed.

Lemma offline_never_calls_onSave_witness :
  let events :=
    [AutoSaveCall (Double.stub "draft"); Elapse 3000; Elapse 60000;
     BeforeUnload] in
  saveCalls (run defaults events (mounted 0 false)) = saveCalls (mounted 0 false)
  /\ isOnlineRef (run defaults events (mounted 0 false)) = false.
Proof.
  intros events.
  apply (offline_never_calls_onSave defaults events (mounted 0 false)).
  - reflexivity.
  - intros H.
    repeat (apply elem_of_cons in H as [H|H]; [discriminate|]).
    by apply elem_of_nil in H.
Defined.

(** The effects of a burst on the backups. *)
Lemma autoSave_backups o d h : backups (autoSave o d h) = backups h.
Proof. unfold autoSave. simpl. by destruct (debounceTimerRef h). Qed.

Lemma armed_waits_backups o d h gap :
  armed o d h -> 0 <= gap < debounceDelay o ->
  backups (elapse gap h) = backups h.
Proof.
  intros (Ha & Hs & Hp & id & Hr & Ht) Hgap.
  by rewrite (elapse_one_waits _ _ _ Ht) by (simpl; lia).
Qed.

Lemma burst_prefix_backups o calls h :
  settled h ->
  Forall (fun c : BlogPost * Z => 0 <= c.2 < debounceDelay o) calls ->
  backups
    (run o (flat_map (fun '(d, gap) => [AutoSaveCall d; Elapse gap]) calls) h)
  = backups h.
Proof.
  intros Hs Hc. revert h Hs.
  induction Hc as [|[d gap] calls Hgap Hc IH]; intros h Hs; [done|].
  cbn [flat_map app run fold_left step].
  destruct (autoSave_arms o d h Hs) as (Harm & _).
  destruct (armed_waits o d _ gap Harm Hgap) as (Hs' & _).
  change (backups (run o (flat_map (fun '(d, gap) => [AutoSaveCall d; Elapse gap]) calls)
            (elapse gap (autoSave o d h))) = backups h).
  rewrite (IH _ Hs'), (armed_waits_backups o d _ gap Harm Hgap).
  apply autoSave_backups.
Qed.

Lemma armed_fires_offline o d h T :
  armed o d h -> isOnlineRef h = false -> debounceDelay o <= T ->
  let h1 := elapse T h in
  saveCalls h1 = saveCalls h
  /\ backups h1
     = backups h ++ [(draftKey d, d, clock h + Z.max 0 (debounceDelay o))]
  /\ pendingDataRef h1 = Some d /\ awaiting h1 = []
  /\ isSavingRef h1 = false /\ clock h1 = clock h + Z.max 0 T.
Proof.
  intros (Ha & Hs & Hp & id & Hr & Ht) Hoff HT h1. subst h1.
  rewrite (elapse_one_fires _ _ _ Ht) by (simpl; lia).
  simpl. rewrite Hp. unfold executeAutoSave. simpl. rewrite Hs, Hoff. simpl.
  repeat split; try done.
  unfold draftKey. do 3 f_equal. lia.
Qed.

Lemma handleOnline_flushes h d :
  awaiting h = [] -> isSavingRef h = false -> pendingDataRef h = Some d ->
  saveCalls (handleOnline h) = saveCalls h ++ [(clock h, d)]
  /\ awaiting (handleOnline h) = [{| data := d; attemptNumber := 1 |}].
Proof.
  intros Ha Hs Hp. unfold handleOnline. simpl. rewrite Hp.
  unfold executeAutoSave. simpl. rewrite Hs. simpl. by rewrite Ha.
Qed.

(** X22. Offline deferral.  Start with a hook in which nothing is
    pending and which is offline.  After a burst of [autoSave] calls and
    a silence of at least the debounce delay, [onSave] has not been
    called, the last payload has been written to the draft backup and is
    kept as pending; when the browser comes back online, [onSave] is
    called at once, exactly once, with that payload. *)
Theorem offline_deferral_then_flush o h calls last T :
  idle h -> isOnlineRef h = false ->
  Forall (fun c : BlogPost * Z => 0 <= c.2 < debounceDelay o) calls ->
  debounceDelay o <= T ->
  let h1 := run o (burst calls last ++ [Elapse T]) h in
  let h2 := run o [Online] h1 in
  saveCalls h1 = saveCalls h
  /\ (exists t, backups h1 = backups h ++ [(draftKey last, last, t)])
  /\ pendingDataRef h1 = Some last
  /\ saveCalls h2 = saveCalls h ++ [(clock h1, last)]
  /\ awaiting h2 = [{| data := last; attemptNumber := 1 |}].
Proof.
  intros Hidle Hoff Hc HT h1 h2.
  pose proof (idle_settled _ Hidle) as Hs0.
  destruct (burst_prefix_settled o calls h Hs0 Hc) as (Hs & Hcalls & Hon).
  pose proof (burst_prefix_backups o calls h Hs0 Hc) as Hb.
  set (h' := run o (flat_map _ calls) h) in *.
  destruct (autoSave_arms o last h' Hs) as (Harm & Hcalls' & Hon' & _).
  pose proof (autoSave_backups o last h') as Hb'.
  set (h0 := autoSave o last h') in *.
  assert (E1 : h1 = elapse T h0).
  { unfold h1, burst. by rewrite !run_app. }
  assert (Hoff0 : isOnlineRef h0 = false) by congruence.
  destruct (armed_fires_offline o last h0 T Harm Hoff0 HT)
    as (F1 & F2 & F3 & F4 & F5 & _).
  rewrite <- E1 in F1, F2, F3, F4, F5.
  destruct (handleOnline_flushes h1 last F4 F5 F3) as [G1 G2].
  split; [congruence|]. split; [eexists; by rewrite F2, Hb', Hb|].
  split; [done|]. split; [|exact G2].
  change (saveCalls (handleOnline h1) = saveCalls h ++ [(clock h1, last)]).
  rewrite G1. congruence.
Qed.

Lemma offline_deferral_then_flush_witness :
  let d1 := Double.stub "draft-1" in
  let d2 := Double.stub "draft-2" in
  let h1 :=
    run defaults (burst [(d1, 500)] d2 ++ [Elapse 3000]) (mounted 0 false) in
  let h2 := run defaults [Online] h1 in
  saveCalls h1 = saveCalls (mounted 0 false)
  /\ (exists t,
        backups h1 = backups (mounted 0 false) ++ [(draftKey d2, d2, t)])
  /\ pendingDataRef h1 = Some d2
  /\ saveCalls h2 = saveCalls (mounted 0 false) ++ [(clock h1, d2)]
  /\ awaiting h2 = [{| data := d2; attemptNumber := 1 |}].
Proof.
  intros d1 d2 h1 h2.
  apply (offline_deferral_then_flush defaults (mounted 0 false) [(d1, 500)]
           d2 3000).
  - repeat split.
  - reflexivity.
  - repeat constructor; simpl; lia.
  - simpl. lia.
Defined.

(** *** Every save is backed up first *)


Lemma backedUp_frame h h' :
  saveCalls h' = saveCalls h ->
  (forall b, b ∈ backups h -> b ∈ backups h') ->
  backedUp h -> backedUp h'.
Proof.
  intros Hc Hb H t d Hin. rewrite Hc in Hin. by apply Hb, H.
Qed.

Lemma backedUp_executeAutoSave d n h :
  backedUp h -> backedUp (executeAutoSave d n h).
Proof.
  intros H. unfold executeAutoSave.
  destruct (isSavingRef h); [by apply (backedUp_frame h)|].
  destruct (isOnlineRef h); simpl.
  - intros t d' Hin. simpl in *.
    apply elem_of_app in Hin as [Hin|Hin]; apply elem_of_app.
    + left. by apply H.
    + right. apply list_elem_of_singleton in Hin. injection Hin as -> ->.
      apply list_elem_of_singleton. done.
  - apply (backedUp_frame h); [done| |done].
    intros x Hx. simpl. apply elem_of_app. by left.
Qed.

Lemma backedUp_runCallback cb h : backedUp h -> backedUp (runCallback cb h).
Proof.
  intros H. unfold runCallback.
  destruct cb, (pendingDataRef h); auto using backedUp_executeAutoSave.
Qed.

Lemma backedUp_fireDue fuel limit h :
  backedUp h -> backedUp (fireDue fuel limit h).
Proof.
  revert h. induction fuel as [|fuel IH]; intros h H; simpl; [done|].
  destruct (nextDue limit (timers h)) as [t|]; [|done].
  apply IH, backedUp_runCallback. by apply (backedUp_frame h).
Qed.

Lemma backedUp_step o h e : backedUp h -> backedUp (step o h e).
Proof.
  intros H. destruct e as [d|dt|k r| | | |]; simpl.
  - apply (backedUp_frame h); [| |done].
    + unfold autoSave. simpl. by destruct (debounceTimerRef h).
    + intros x Hx. by rewrite autoSave_backups.
  - unfold elapse.
    apply (backedUp_frame (fireDue (List.length (timers h))
                             (clock h + Z.max 0 dt) h)); [done|done|].
    by apply backedUp_fireDue.
  - destruct (settle_effects o k r h) as (Hc & Hb & _).
    apply (backedUp_frame h); [done| |done]. intros x. by rewrite Hb.
  - unfold handleOnline. simpl.
    destruct (pendingDataRef h);
      [apply backedUp_executeAutoSave|]; by apply (backedUp_frame h).
  - by apply (backedUp_frame h).
  - unfold handleBeforeUnload. destruct (pendingDataRef h); [|done].
    destruct (isSavingRef h); [|done].
    apply (backedUp_frame h); [by destruct (debounceTimerRef h)| |done].
    intros x Hx. destruct (debounceTimerRef h); simpl;
      apply elem_of_app; by left.
  - by apply (backedUp_frame h).
Qed.

(** X23. Whatever happens after the hook is mounted, every call of
    [onSave] was preceded, at the same moment, by a write of the same
    payload to the draft backup, under [blog_draft_<id>] (or
    [blog_draft_new] for a payload without identifier). *)
Theorem every_save_is_backed_up o now online events :
  let h := run o events (mounted now online) in
  forall t d,
    (t, d) ∈ saveCalls h ->
    ("blog_draft_" +:+ orElse (post_id d) "new", d, t) ∈ backups h.
Proof.
  intros h. subst h.
  assert (H : forall h, backedUp h -> backedUp (run o events h)).
  { induction events as [|e events IH]; intros h H; [done|].
    simpl. by apply IH, backedUp_step. }
  apply H. intros t d Hin. by apply elem_of_nil in Hin.
Qed.

Lemma every_save_is_backed_up_witness :
  let d := Double.stub "draft" in
  let h := run defaults [AutoSaveCall d; Elapse 3000] (mounted 0 true) in
  ("blog_draft_" +:+ orElse (post_id d) "new", d, 3000) ∈ backups h.
Proof.
  intros d h.
  apply (every_save_is_backed_up defaults 0 true [AutoSaveCall d; Elapse 3000]).
  change ((3000, d) ∈ [(3000, d)]). apply list_elem_of_here.
Defined.

(** *** Unload *)

(** X24. [beforeunload] writes the pending payload to the draft backup
    only while a save is pending.  An edit that is still waiting for its
    debounce delay is not written: after any burst of [autoSave] calls
    on an idle hook, the unload handler changes nothing.  While a save
    is pending, it writes the pending payload and calls nothing. *)
Theorem unload_during_debounce_writes_nothing o h calls last :
  idle h ->
  Forall (fun c : BlogPost * Z => 0 <= c.2 < debounceDelay o) calls ->
  let h1 := run o (burst calls last) h in
  pendingDataRef h1 = Some last
  /\ handleBeforeUnload h1 = h1
  /\ (forall h' d,
        isSavingRef h' = true -> pendingDataRef h' = Some d ->
        backups (handleBeforeUnload h')
        = backups h' ++ [(draftKey d, d, clock h')]
        /\ saveCalls (handleBeforeUnload h') = saveCalls h').
Proof.
  intros Hidle Hc h1.
  destruct (burst_prefix_settled o calls h (idle_settled _ Hidle) Hc)
    as (Hs & _).
  set (h' := run o (flat_map _ calls) h) in *.
  destruct (autoSave_arms o last h' Hs) as ((Ha & Hsv & Hp & _) & _).
  assert (E : h1 = autoSave o last h').
  { unfold h1, burst. by rewrite run_app. }
  rewrite <- E in Ha, Hsv, Hp.
  split; [done|]. split.
  - unfold handleBeforeUnload. by rewrite Hp, Hsv.
  - intros h'' d Hs'' Hp''. unfold handleBeforeUnload.
    rewrite Hp'', Hs''. by destruct (debounceTimerRef h'').
Qed.

Lemma unload_during_debounce_writes_nothing_witness :
  let d1 := Double.stub "draft-1" in
  let d2 := Double.stub "draft-2" in
  let h1 := run defaults (burst [(d1, 500)] d2) (mounted 0 true) in
  pendingDataRef h1 = Some d2
  /\ handleBeforeUnload h1 = h1
  /\ (forall h' d,
        isSavingRef h' = true -> pendingDataRef h' = Some d ->
        backups (handleBeforeUnload h')
        = backups h' ++ [(draftKey d, d, clock h')]
        /\ saveCalls (handleBeforeUnload h') = saveCalls h').
Proof.
  intros d1 d2 h1.
  apply (unload_during_debounce_writes_nothing defaults (mounted 0 true)
           [(d1, 500)] d2).
  - repeat split.
  - repeat constructor; simpl; lia.
Defined.

(** *** After the retries are used up *)

Lemma settle_rejected_online o d n h reason :
  saving d n h -> isOnlineRef (settle o 0 (Rejected reason) h) = true.
Proof.
  intros (_ & _ & _ & _ & Hon).
  destruct (settle_effects o 0 (Rejected reason) h) as (_ & _ & Ho).
  congruence.
Qed.

(** X25. When the last allowed attempt has failed, the next edit starts
    over: after the debounce delay [onSave] is called with the new
    payload as attempt 1 (so that this payload again gets up to
    [maxRetries] attempts, with the delays starting at [retryDelay]). *)
Theorem edit_after_exhaustion_restarts o d n h reason d' T :
  saving d n h -> maxRetries o <= n -> debounceDelay o <= T ->
  let h1 := run o [Settle 0 (Rejected reason); AutoSaveCall d'; Elapse T] h in
  saving d' 1 h1
  /\ saveCalls h1
     = saveCalls h ++ [(clock h + Z.max 0 (debounceDelay o), d')].
Proof.
  intros Hs Hn HT h1.
  destruct (saving_rejected_exhausted o d n h reason Hs Hn)
    as (Hi & Hc & Hk & _).
  pose proof (settle_rejected_online o d n h reason Hs) as Hon.
  set (h0 := settle o 0 (Rejected reason) h) in *.
  destruct (autoSave_arms o d' h0 (idle_settled _ Hi))
    as (Harm & Hc' & Hon' & Hk').
  set (h0' := autoSave o d' h0) in *.
  destruct (armed_fires o d' h0' T Harm ltac:(congruence) HT)
    as (F1 & F2 & F3 & F4 & F5 & F6 & _).
  change h1 with (elapse T h0').
  split; [done|]. rewrite F1. congruence.
Qed.

Lemma edit_after_exhaustion_restarts_witness :
  let d := Double.stub "draft-1" in
  let d' := Double.stub "draft-2" in
  let failure := Rejected (ErrorObject "network down") in
  let h :=
    run defaults
      [AutoSaveCall d; Elapse 3000; Settle 0 failure; Elapse 1000;
       Settle 0 failure; Elapse 2000] (mounted 0 true) in
  let h1 := run defaults [Settle 0 failure; AutoSaveCall d'; Elapse 3000] h in
  saving d' 1 h1
  /\ saveCalls h1
     = saveCalls h ++ [(clock h + Z.max 0 (debounceDelay defaults), d')].
Proof.
  intros d d' failure h h1.
  apply (edit_after_exhaustion_restarts defaults d 3 h
           (ErrorObject "network down") d' 3000).
  - repeat split.
  - simpl. lia.
  - simpl. lia.
Defined.

(** *** Timers *)

Lemma nextDue_spec limit (ts : list Timer) :
  match nextDue limit ts with
  | Some t => t ∈ ts /\ due t <= limit
  | None => Forall (fun t => limit < due t) ts
  end.
Proof.
  induction ts as [|t ts IH]; simpl; [done|].
  destruct (nextDue limit ts) as [t'|].
  - destruct IH as [Hin Hd].
    destruct (Z.leb_spec (due t) limit); simpl.
    + destruct (earlier t t'); split; try done;
        [apply list_elem_of_here|by apply list_elem_of_further].
    + split; [by apply list_elem_of_further|done].
  - destruct (Z.leb_spec (due t) limit).
    + split; [apply list_elem_of_here|done].
    + by constructor.
Qed.

Lemma runCallback_timers cb h : timers (runCallback cb h) = timers h.
Proof.
  unfold runCallback, executeAutoSave.
  destruct cb, (pendingDataRef h); try done;
    destruct (isSavingRef h); try done; by destruct (isOnlineRef h).
Qed.

Lemma clearTimeout_shrinks (t : Timer) h :
  t ∈ timers h ->
  (List.length (timers (clearTimeout (timerId t) h)) < List.length (timers h))%nat.
Proof.
  unfold clearTimeout. simpl. induction (timers h) as [|t' ts IH]; intros Hin.
  - by apply elem_of_nil in Hin.
  - simpl. apply elem_of_cons in Hin as [<-|Hin].
    + rewrite Nat.eqb_refl. simpl.
      pose proof (filter_length_le (fun t0 => negb (timerId t0 =? timerId t)%nat) ts).
      lia.
    + specialize (IH Hin). destruct (negb _); simpl; lia.
Qed.

Lemma fireDue_leaves_none_due fuel limit h :
  (List.length (timers h) <= fuel)%nat ->
  Forall (fun t => limit < due t) (timers (fireDue fuel limit h)).
Proof.
  revert h. induction fuel as [|fuel IH]; intros h Hlen.
  - destruct (timers h) eqn:E; [simpl; by rewrite E|simpl in Hlen; lia].
  - simpl. pose proof (nextDue_spec limit (timers h)) as Hn.
    destruct (nextDue limit (timers h)) as [t|]; [|done].
    destruct Hn as [Hin _]. apply IH.
    rewrite runCallback_timers. simpl.
    pose proof (clearTimeout_shrinks t h Hin). simpl in *. lia.
Qed.

(** The number of firings that [elapse] allows for is enough: no timer
    that is due is left behind. *)
Lemma elapse_leaves_none_due dt h :
  Forall (fun t => clock (elapse dt h) < due t) (timers (elapse dt h)).
Proof. unfold elapse. simpl. by apply fireDue_leaves_none_due. Qed.

End AutoSaveMore.
